(** * XFA_to_HTML: the stacked UI interpreter of [PDF-XML_to_HTML.py]

    A shallow embedding of the interpreter half of the script
    ([extract_all_js], [process_element], [build_ui_interpreter_stacked])
    together with the part of the lxml element API those functions call.

    The interpreter is embedded twice.  [Tree] takes the document as a
    value and threads the [cascade_required] flag; the functional claims are
    stated on it.  [Heap] takes the document as a store of nodes behind
    handles, as lxml hands it out, and is written against the element API as
    computations over that store; it carries the claims about what a run does
    to the document.  The two are proved to compute the same output.

    Text is modelled by [string]; a character stands for a code point
    below 256, which is where Python's [str.lower] and [str.strip] are
    spelled out below.  Recursion depth is not bounded as CPython bounds
    it. *)

From Stdlib Require Import String Ascii Bool Arith ZArith Lia.
From stdpp Require Import base option list gmap strings.

Local Open Scope stdpp_scope.

(** ** Python string operations used by the source *)

Module Py.

Definition nl : string := String (ascii_of_nat 10) EmptyString.
Definition dq : string := String (ascii_of_nat 34) EmptyString.

(** [sep.join(parts)] *)
Fixpoint join (sep : string) (parts : list string) : string :=
  match parts with
  | [] => ""
  | [p] => p
  | p :: rest => p +:+ sep +:+ join sep rest
  end.

Definition in_range (lo hi n : nat) : bool := (lo <=? n) && (n <=? hi).

(** [str.lower] on one code point below 256: A-Z, and the Latin-1 capitals
    U+00C0..U+00DE without the multiplication sign U+00D7. *)
Definition lower_char (c : ascii) : ascii :=
  let n := nat_of_ascii c in
  if in_range 65 90 n then ascii_of_nat (n + 32)
  else if in_range 192 222 n && negb (n =? 215) then ascii_of_nat (n + 32)
  else c.

Fixpoint lower (s : string) : string :=
  match s with
  | EmptyString => EmptyString
  | String c s' => String (lower_char c) (lower s')
  end.

(** [s.startswith(p)] *)
Fixpoint startswith (s p : string) : bool :=
  match p, s with
  | EmptyString, _ => true
  | String _ _, EmptyString => false
  | String a p', String b s' => if ascii_dec a b then startswith s' p' else false
  end.

(** [sub in s] *)
Fixpoint contains (s sub : string) : bool :=
  startswith s sub ||
  match s with
  | EmptyString => false
  | String _ s' => contains s' sub
  end.

(** [s.endswith(p)] *)
Definition endswith (s p : string) : bool :=
  startswith (String.rev s) (String.rev p).

(** [str.isspace] on one code point below 256. *)
Definition is_space (c : ascii) : bool :=
  let n := nat_of_ascii c in
  in_range 9 13 n || in_range 28 32 n || (n =? 133) || (n =? 160).

Fixpoint lstrip (s : string) : string :=
  match s with
  | EmptyString => EmptyString
  | String c s' => if is_space c then lstrip s' else s
  end.

(** [s.strip()] *)
Definition strip (s : string) : string :=
  String.rev (lstrip (String.rev (lstrip s))).

(** Truth value of an optional string: [None] and [""] are falsy. *)
Definition truthy (o : option string) : bool :=
  match o with
  | Some (String _ _) => true
  | _ => false
  end.

(** [o or d] for an optional string [o]. *)
Definition or_else (o : option string) (d : string) : string :=
  match o with
  | Some (String c s) => String c s
  | _ => d
  end.

End Py.

Import Py.

(** ** Tags, kinds and the literal texts *)

(** A tag as lxml keeps it: an optional namespace URI and a local name
    (Clark notation [{uri}local] when printed). *)
Record QName : Type := mkQName { ns_uri : option string; localname : string }.

Global Instance QName_eq_dec : EqDecision QName.
Proof. solve_decision. Defined.

Definition XFA_NS : string := "http://www.xfa.org/schema/xfa-template/3.3/".

(** [{http://www.xfa.org/schema/xfa-template/3.3/}name] *)
Definition xfa (name : string) : QName := mkQName (Some XFA_NS) name.

(** A tag written without braces names an element outside any namespace. *)
Definition plain (name : string) : QName := mkQName None name.

(** The branch taken by the [if tag == ...] chain. *)
Inductive kind : Type :=
| Subform | Field | Button | Text | TextEdit | NumericEdit
| ChoiceList | Draw | ExclGroup | CheckButton | Other.

Definition classify (tag : string) : kind :=
  if String.eqb tag "subform" then Subform
  else if String.eqb tag "field" then Field
  else if String.eqb tag "button" then Button
  else if String.eqb tag "text" then Text
  else if String.eqb tag "textedit" then TextEdit
  else if String.eqb tag "numericedit" then NumericEdit
  else if String.eqb tag "choicelist" then ChoiceList
  else if String.eqb tag "draw" then Draw
  else if String.eqb tag "exclgroup" then ExclGroup
  else if String.eqb tag "checkbutton" then CheckButton
  else Other.


(** ** The literal script and markup texts of build_ui_interpreter_stacked *)

(** The linkage script injected when [cascade_required] is set. *)
Definition cascade_js_lines : list string :=
  [ "document.addEventListener('DOMContentLoaded', function(){";
    "    var inputs = document.querySelectorAll(" +:+ dq +:+ "input[data-cascade], button[data-cascade]" +:+ dq +:+ ");";
    "    inputs.forEach(function(input){";
    "        input.addEventListener('input', function(){";
    "            var group = input.getAttribute(" +:+ dq +:+ "data-cascade" +:+ dq +:+ ");";
    "            var cascadeInputs = document.querySelectorAll(" +:+ dq +:+ "input[data-cascade='" +:+ dq +:+ " + group + " +:+ dq +:+ "'], button[data-cascade='" +:+ dq +:+ " + group + " +:+ dq +:+ "']" +:+ dq +:+ ");";
    "            cascadeInputs.forEach(function(cInput){";
    "                if(cInput !== input){";
    "                    cInput.value = input.value;";
    "                }";
    "            });";
    "        });";
    "    });";
    "});" ].

(** The [schCar] adapter and the Acrobat-to-web translator. *)
Definition adapter_lines : list string :=
  [ "if (typeof schCar === 'undefined') {";
    "    var schCar = {";
    "        schEnt: function(str) {";
    "            return str.replace(/&/g, '&amp;').replace(/</g, '&lt;').replace(/>/g, '&gt;');";
    "        }";
    "    };";
    "}";
    EmptyString;
    "// Function to translate Acrobat-specific JS to web-compatible JS.";
    "// This is a simple example. You can extend this to perform more complex translations.";
    "function translateAcrobatJS(acrobatJS) {";
    "    // For example, replace " +:+ dq +:+ "app.alert" +:+ dq +:+ " with " +:+ dq +:+ "window.xfa.host.messageBox" +:+ dq;
    "    var webJS = acrobatJS.replace(/app\.alert/g, " +:+ dq +:+ "window.xfa.host.messageBox" +:+ dq +:+ ");";
    "    return webJS;";
    "}" ].

(** Runtime, first part: [window.xfa.host] and [window.xfa.form]. *)
Definition host_form_lines : list string :=
  [ "// Advanced XFA JavaScript Runtime Support";
    "if (typeof window.xfa === 'undefined') {";
    "    window.xfa = {};";
    "}";
    "window.xfa.host = {";
    "    messageBox: function(message, title, iconType) {";
    "        // For advanced runtime, replace alert with a custom modal if desired.";
    "        alert(title ? `${title}: ${message}` : message);";
    "    },";
    "    gotoURL: function(url) {";
    "        window.location.href = url;";
    "    },";
    "    beep: function(type) {";
    "        const audio = new Audio('https://www.soundjay.com/button/beep-07.wav');";
    "        audio.play();";
    "    }";
    "};";
    "window.xfa.form = {";
    "    resolveNode: function(path) {";
    "        return document.querySelector(`[name='${path}']`);";
    "    },";
    "    execEvent: function(eventName, node) {";
    "        if (node && node.dispatchEvent) {";
    "            node.dispatchEvent(new Event(eventName, { bubbles: true }));";
    "        }";
    "    }";
    "};" ].

(** Runtime, second part: the default font object. *)
Definition font_stub_lines : list string :=
  [ "// Define a default font object to prevent " +:+ dq +:+ "undefined" +:+ dq +:+ " errors.";
    "if (typeof window.xfa.font === 'undefined') {";
    "    window.xfa.font = {";
    "        measureText: function(text) {";
    "            return { width: text.length * 7 };";
    "        }";
    "    };";
    "};" ].

(** Runtime, third part: [executeXFAJavaScript]. *)
Definition executor_lines : list string :=
  [ "function executeXFAJavaScript(jsCode) {";
    "    try {";
    "        new Function(jsCode)();";
    "    } catch (error) {";
    "        console.error('Error executing XFA script:', error);";
    "    }";
    "}" ].

(** Runtime, fourth part: [window.xfa.advanced]. *)
Definition advanced_lines : list string :=
  [ "// Advanced runtime features: asynchronous execution and event registration.";
    "window.xfa.advanced = {";
    "    async executeAsync(jsCode) {";
    "        try {";
    "            const asyncFunc = new Function('return (async () => {' + jsCode + '})')();";
    "            await asyncFunc;";
    "        } catch (error) {";
    "            console.error('Error executing async XFA script:', error);";
    "        }";
    "    },";
    "    registerEventHandler: function(selector, eventName, handler) {";
    "        const elements = document.querySelectorAll(selector);";
    "        elements.forEach(function(el) {";
    "            el.addEventListener(eventName, handler);";
    "        });";
    "    }";
    "};" ].

(** The click dispatcher bound by event delegation. *)
Definition default_bindings_lines : list string :=
  [ "document.addEventListener(" +:+ dq +:+ "DOMContentLoaded" +:+ dq +:+ ", function(){";
    "    document.body.addEventListener(" +:+ dq +:+ "click" +:+ dq +:+ ", function(event){";
    "        var target = event.target;";
    "        if(target.tagName.toLowerCase() === " +:+ dq +:+ "button" +:+ dq +:+ "){";
    "            // Check if this button has an Acrobat JS snippet attached.";
    "            if(target.hasAttribute(" +:+ dq +:+ "data-acrobat-js" +:+ dq +:+ ")){";
    "                // Lazy-load the XFA runtime if not already loaded.";
    "                if(typeof window.xfaRuntimeLoaded === " +:+ dq +:+ "undefined" +:+ dq +:+ " || !window.xfaRuntimeLoaded){";
    "                    console.log(" +:+ dq +:+ "Loading XFA runtime..." +:+ dq +:+ ");";
    "                    // (In a real scenario, you might load additional runtime code here)";
    "                    window.xfaRuntimeLoaded = true;";
    "                }";
    "                var acrobatJS = target.getAttribute(" +:+ dq +:+ "data-acrobat-js" +:+ dq +:+ ");";
    "                var translatedJS = translateAcrobatJS(acrobatJS);";
    "                try {";
    "                    new Function(translatedJS)();";
    "                } catch(error) {";
    "                    console.error(" +:+ dq +:+ "Error executing translated JS:" +:+ dq +:+ ", error);";
    "                }";
    "            } else {";
    "                console.log(" +:+ dq +:+ "Button clicked (default binding): " +:+ dq +:+ " + target.id);";
    "                window.xfa.host.messageBox(" +:+ dq +:+ "Default action for " +:+ dq +:+ " + target.id);";
    "            }";
    "        }";
    "    });";
    "});" ].

(** The document up to the opening of its body, one entry per line. *)
Definition doc_head_lines (ui_title : string) : list string :=
  [ "<!DOCTYPE html>";
    "<html>";
    "<head>";
    "  <meta charset=" +:+ dq +:+ "UTF-8" +:+ dq +:+ ">";
    "  <title>" +:+ ui_title +:+ "</title>";
    "  <meta name=" +:+ dq +:+ "viewport" +:+ dq +:+ " content=" +:+ dq +:+ "width=device-width, initial-scale=1.0" +:+ dq +:+ ">";
    "  <style>";
    "    body {";
    "      margin: 0;";
    "      padding: 20px;";
    "      font-family: Arial, sans-serif;";
    "      background: #eee;";
    "    }";
    "    .xfa-container {";
    "      display: flex;";
    "      flex-direction: column;";
    "      gap: 20px;";
    "      background: #fff;";
    "      padding: 20px;";
    "      box-shadow: 0 0 10px rgba(0,0,0,0.1);";
    "    }";
    "    .subform, .field, .button, .static-text, .textedit, .numericedit, .choicelist, .draw, .exclgroup, .checkbutton {";
    "      display: block;";
    "      width: 100%;";
    "      position: relative;";
    "      margin-bottom: 10px;";
    "    }";
    "    .subform {";
    "      border: 1px dashed #888;";
    "      padding: 10px;";
    "    }";
    "    .field, .button, .static-text, .textedit, .numericedit, .choicelist, .draw, .exclgroup, .checkbutton {";
    "      background: #fff;";
    "      border: 1px solid #ccc;";
    "      padding: 10px;";
    "    }";
    "    label {";
    "      display: block;";
    "      margin-bottom: 5px;";
    "      font-weight: bold;";
    "    }";
    "    input[type=" +:+ dq +:+ "text" +:+ dq +:+ "], input[type=" +:+ dq +:+ "number" +:+ dq +:+ "] {";
    "      padding: 5px;";
    "      width: 100%;";
    "      box-sizing: border-box;";
    "    }";
    "    button {";
    "      padding: 10px 15px;";
    "      cursor: pointer;";
    "      font-size: 14px;";
    "    }";
    "    select {";
    "      padding: 5px;";
    "      width: 100%;";
    "      box-sizing: border-box;";
    "    }";
    "    .static-text {";
    "      background: #f9f9f9;";
    "      border: 1px solid #ddd;";
    "    }";
    "  </style>";
    "</head>";
    "<body>" ].

(** A raw triple-quoted literal whose text sits on lines of its own: it
    opens and closes with a line break. *)
Definition block (ls : list string) : string := nl +:+ join nl ls +:+ nl.

Definition cascade_js_text : string := block cascade_js_lines.

Definition adapter : string := block adapter_lines.

Definition xfa_runtime_lines : list string :=
  host_form_lines ++ [EmptyString] ++ font_stub_lines ++ [EmptyString]
  ++ executor_lines ++ [EmptyString] ++ advanced_lines.

Definition xfa_runtime_js : string := block xfa_runtime_lines.

Definition default_bindings_js : string := block default_bindings_lines.

Definition ui_title : string := "Stacked Interpreted XFA Form".

(** The [html_doc] f-string: head, body, script section, closing tags. *)
Definition html_doc (title body_content full_js : string) : string :=
  join nl (doc_head_lines title) +:+ nl
  +:+ body_content +:+ nl
  +:+ "<script>" +:+ nl
  +:+ full_js +:+ nl
  +:+ "</script>" +:+ nl
  +:+ "</body>" +:+ nl
  +:+ "</html>" +:+ nl.

(** ** The interpreter over element trees as values *)

Module Tree.

#[local] Unset Elimination Schemes.

(** An element carries a tag, its attribute mapping, its direct text and its
    children in document order.  Comments, processing instructions and
    entities are [_Element] instances too, but their [tag] is not a string. *)
Inductive element : Type :=
| Element (tag : QName) (attrib : gmap string string)
          (text : option string) (children : list element)
| Special (text : option string).

#[local] Set Elimination Schemes.

Definition children_of (el : element) : list element :=
  match el with
  | Element _ _ _ cs => cs
  | Special _ => []
  end.

(** [el.text] *)
Definition text_of (el : element) : option string :=
  match el with
  | Element _ _ t _ => t
  | Special t => t
  end.

(** [el.get(key)] *)
Definition get (el : element) (key : string) : option string :=
  match el with
  | Element _ a _ _ => a !! key
  | Special _ => None
  end.

(** [el.get(key, default)] *)
Definition get_default (el : element) (key default : string) : string :=
  match get el key with
  | Some v => v
  | None => default
  end.

(** [etree.QName(el).localname]; it raises on a node whose tag is not a
    string, which is [None] here. *)
Definition qname_localname (el : element) : option string :=
  match el with
  | Element q _ _ _ => Some (localname q)
  | Special _ => None
  end.

(** [el.iterdescendants()]: every node below [el], in document order. *)
Fixpoint iterdescendants (el : element) : list element :=
  match el with
  | Element _ _ _ cs =>
      (fix walk (l : list element) : list element :=
         match l with
         | [] => []
         | c :: l' => c :: iterdescendants c ++ walk l'
         end) cs
  | Special _ => []
  end.

Definition has_tag (q : QName) (el : element) : bool :=
  match el with
  | Element q' _ _ _ => bool_decide (q' = q)
  | Special _ => false
  end.

(** [el.findall(".//tag")]: the descendants carrying exactly that tag. *)
Definition findall (el : element) (q : QName) : list element :=
  List.filter (has_tag q) (iterdescendants el).

(** [el.find(".//tag")] *)
Definition find (el : element) (q : QName) : option element :=
  head (findall el q).

(** ** extract_all_js *)

Definition extract_all_js (xfa_xml : element) : string :=
  let js_parts :=
    omap (fun script_el =>
            if truthy (text_of script_el) then text_of script_el else None)
         (findall xfa_xml (xfa "script")) in
  join nl js_parts.

(** ** process_element *)

(** The renderer threads one piece of state, the [cascade_required] flag of
    the enclosing [build_ui_interpreter_stacked] call. *)
Definition Render (A : Type) : Type := bool -> A * bool.

Definition ret {A} (a : A) : Render A := fun flag => (a, flag).

Definition bind {A B} (m : Render A) (k : A -> Render B) : Render B :=
  fun flag => let (a, flag') := m flag in k a flag'.

Definition set_cascade_required : Render unit := fun _ => (tt, true).

#[local] Notation "'let!' x ':=' m 'in' k" := (bind m (fun x => k))
  (at level 10, x name, m at level 200, k at level 200, only parsing).

(** The text of [cascade_attr] once the [cascade] attribute has been read. *)
Definition cascade_attr_of (cascade : option string) : string :=
  if truthy cascade
  then " data-cascade='" +:+ default "" cascade +:+ "'"
  else "".

(** The test that turns a [field] into a button. *)
Definition field_is_button (el : element) : bool :=
  let field_name := get_default el "name" "UnnamedField" in
  let ui_type := lower (get_default el "uiType" "") in
  contains ui_type "button"
  || startswith (lower field_name) "btn"
  || startswith (lower field_name) "button"
  || endswith (lower field_name) "btn".

Definition field_parts (el : element) (cascade_attr : string) : list string :=
  let field_name := get_default el "name" "UnnamedField" in
  let field_label := get_default el "label" field_name in
  let field_value := get_default el "value" "" in
  let field_type := get_default el "type" "text" in
  if field_is_button el then
    [ "<div class='field'>";
      "<button type='button' id='" +:+ field_name +:+ "' name='" +:+ field_name
        +:+ "'" +:+ cascade_attr +:+ ">" +:+ field_label +:+ "</button>";
      "</div>" ]
  else
    [ "<div class='field'>";
      "<label for='" +:+ field_name +:+ "'>" +:+ field_label +:+ "</label>";
      "<input type='" +:+ field_type +:+ "' id='" +:+ field_name +:+ "' name='"
        +:+ field_name +:+ "' value='" +:+ field_value +:+ "'" +:+ cascade_attr
        +:+ " />";
      "</div>" ].

Definition button_parts (el : element) : list string :=
  let btn_text := or_else (text_of el) "Button" in
  let btn_id := get_default el "name" "button" in
  [ "<div class='button'>";
    "<button type='button' id='" +:+ btn_id +:+ "' name='" +:+ btn_id +:+ "'>"
      +:+ btn_text +:+ "</button>";
    "</div>" ].

Definition text_parts (el : element) : list string :=
  let txt := or_else (text_of el) "" in
  [ "<div class='static-text'>" +:+ txt +:+ "</div>" ].

Definition textedit_parts (el : element) (cascade_attr : string) : list string :=
  let field_name := get_default el "name" "TextEdit" in
  let field_value := get_default el "value" "" in
  [ "<div class='textedit'>";
    "<input type='text' id='" +:+ field_name +:+ "' name='" +:+ field_name
      +:+ "' value='" +:+ field_value +:+ "'" +:+ cascade_attr +:+ " />";
    "</div>" ].

Definition numericedit_parts (el : element) (cascade_attr : string) : list string :=
  let field_name := get_default el "name" "NumericEdit" in
  let field_value := get_default el "value" "" in
  [ "<div class='numericedit'>";
    "<input type='number' id='" +:+ field_name +:+ "' name='" +:+ field_name
      +:+ "' value='" +:+ field_value +:+ "'" +:+ cascade_attr +:+ " />";
    "</div>" ].

(** [item.get("value", item.text or "")] *)
Definition option_value_of (item : element) : string :=
  get_default item "value" (or_else (text_of item) "").

(** [item.text or option_value] *)
Definition option_text_of (item : element) : string :=
  or_else (text_of item) (option_value_of item).

Definition option_line (item : element) : string :=
  "<option value='" +:+ option_value_of item +:+ "'>" +:+ option_text_of item
    +:+ "</option>".

Definition choicelist_parts (el : element) (cascade_attr : string) : list string :=
  let field_name := get_default el "name" "ChoiceList" in
  [ "<div class='choicelist'>";
    "<label for='" +:+ field_name +:+ "'>" +:+ field_name +:+ "</label>";
    "<select id='" +:+ field_name +:+ "' name='" +:+ field_name +:+ "'"
      +:+ cascade_attr +:+ ">" ]
  ++ map option_line (findall el (plain "item"))
  ++ [ "</select>"; "</div>" ].

Definition radio_line (group_name cascade_attr : string) (choice : element) : string :=
  "<label><input type='radio' name='" +:+ group_name +:+ "' value='"
    +:+ option_value_of choice +:+ "'" +:+ cascade_attr +:+ "/> "
    +:+ option_text_of choice +:+ "</label>".

Definition exclgroup_parts (el : element) (cascade_attr : string) : list string :=
  let group_name := get_default el "name" "ExclGroup" in
  [ "<div class='exclgroup'>" ]
  ++ map (radio_line group_name cascade_attr) (findall el (plain "exclchoice"))
  ++ [ "</div>" ].

Definition checkbutton_parts (el : element) (cascade_attr : string) : list string :=
  let field_name := get_default el "name" "CheckButton" in
  [ "<div class='checkbutton'>";
    "<label><input type='checkbox' id='" +:+ field_name +:+ "' name='"
      +:+ field_name +:+ "'" +:+ cascade_attr +:+ "/> " +:+ field_name
      +:+ "</label>";
    "</div>" ].

(** The optional [<span>] a [draw] opens with. *)
Definition draw_span (el : element) : list string :=
  match text_of el with
  | Some t =>
      if truthy (Some t) && truthy (Some (strip t))
      then [ "<span>" +:+ strip t +:+ "</span>" ]
      else []
  | None => []
  end.

Fixpoint process_element (el : element) : Render string :=
  match el with
  | Special _ => ret ""
  | Element q _ _ children =>
      let tag := lower (localname q) in
      let cascade := get el "cascade" in
      let cascade_attr := cascade_attr_of cascade in
      let! _ := (if truthy cascade then set_cascade_required else ret tt) in
      let each_child :=
        fix each (cs : list element) : Render (list string) :=
          match cs with
          | [] => ret []
          | child :: cs' =>
              let! part := process_element child in
              let! parts := each cs' in
              ret (part :: parts)
          end in
      let! html_parts :=
        match classify tag with
        | Subform =>
            let sf_name := get_default el "name" "Subform" in
            let! parts := each_child children in
            ret ([ "<div class='subform'>"; "<h2>" +:+ sf_name +:+ "</h2>" ]
                 ++ parts ++ [ "</div>" ])
        | Field => ret (field_parts el cascade_attr)
        | Button => ret (button_parts el)
        | Text => ret (text_parts el)
        | TextEdit => ret (textedit_parts el cascade_attr)
        | NumericEdit => ret (numericedit_parts el cascade_attr)
        | ChoiceList => ret (choicelist_parts el cascade_attr)
        | Draw =>
            let! parts := each_child children in
            ret ([ "<div class='draw' style='border:1px solid #aaa; padding:5px;'>" ]
                 ++ draw_span el ++ parts ++ [ "</div>" ])
        | ExclGroup => ret (exclgroup_parts el cascade_attr)
        | CheckButton => ret (checkbutton_parts el cascade_attr)
        | Other => each_child children
        end in
      ret (join nl html_parts)
  end.

(** ** build_ui_interpreter_stacked *)

(** The node the rendering starts from: the first [template] element of the
    XFA namespace below the root, or the root when there is none. *)
Definition template_of (xfa_xml : element) : element :=
  match find xfa_xml (xfa "template") with
  | Some template => template
  | None => xfa_xml
  end.

(** One render pass: [cascade_required] starts out [False]. *)
Definition render_pass (xfa_xml : element) : string * bool :=
  process_element (template_of xfa_xml) false.

Definition body_content (xfa_xml : element) : string :=
  "<div class='xfa-container'>" +:+ nl +:+ fst (render_pass xfa_xml) +:+ nl
  +:+ "</div>".

Definition cascade_js (xfa_xml : element) : string :=
  if snd (render_pass xfa_xml) then cascade_js_text else EmptyString.

Definition ui_js (xfa_xml : element) : string :=
  adapter +:+ nl +:+ xfa_runtime_js +:+ nl +:+ extract_all_js xfa_xml +:+ nl
  +:+ default_bindings_js.

Definition full_js (xfa_xml : element) : string :=
  cascade_js xfa_xml +:+ nl +:+ ui_js xfa_xml.

Definition build_ui_interpreter_stacked (xfa_xml : element) : string :=
  html_doc ui_title (body_content xfa_xml) (full_js xfa_xml).

(** ** Induction over element trees *)

Section ElementInduction.
Variable P : element -> Prop.
Hypothesis P_special : forall t, P (Special t).
Hypothesis P_element :
  forall q a t cs, Forall P cs -> P (Element q a t cs).

Fixpoint element_ind (el : element) : P el :=
  match el with
  | Special t => P_special t
  | Element q a t cs =>
      P_element q a t cs
        ((fix all (l : list element) : Forall P l :=
            match l with
            | [] => @Stdlib.Lists.List.Forall_nil _ P
            | c :: l' => @Stdlib.Lists.List.Forall_cons _ P c l' (element_ind c) (all l')
            end) cs)
  end.
End ElementInduction.

(** The loop [for child in el: html_parts.append(process_element(child))]. *)
Fixpoint process_children (cs : list element) : Render (list string) :=
  match cs with
  | [] => ret []
  | child :: cs' =>
      let! part := process_element child in
      let! parts := process_children cs' in
      ret (part :: parts)
  end.

End Tree.

(** ** The interpreter over a store of nodes *)

(** lxml hands out references into one mutable document.  Here the document
    is a store from node handles to nodes, every API call is a computation
    over that store, and the interpreter is written against those calls. *)

Module Heap.

(** A node handle. *)
Abbreviation loc := positive.

Inductive node : Type :=
| ElementNode (tag : QName) (attrib : gmap string string)
              (text : option string) (children : list loc)
| SpecialNode (text : option string).

(** What a call can read and change: the document and the [cascade_required]
    variable of the running [build_ui_interpreter_stacked]. *)
Record world : Type := World { store : gmap loc node; cascade_required : bool }.

(** A computation returns a value and the world it leaves, or stops: on a
    handle that names no node, or when [fuel] runs out. *)
Definition M (A : Type) : Type := world -> option (A * world).

Definition ret {A} (a : A) : M A := fun w => Some (a, w).

Definition bind {A B} (m : M A) (k : A -> M B) : M B :=
  fun w => match m w with
           | Some (a, w') => k a w'
           | None => None
           end.

Definition fail {A} : M A := fun _ => None.

#[local] Notation "'let!' x ':=' m 'in' k" := (bind m (fun x => k))
  (at level 10, x name, m at level 200, k at level 200, only parsing).

Fixpoint mapM {A B} (f : A -> M B) (l : list A) : M (list B) :=
  match l with
  | [] => ret []
  | x :: l' =>
      let! y := f x in
      let! ys := mapM f l' in
      ret (y :: ys)
  end.

Fixpoint filterM {A} (p : A -> M bool) (l : list A) : M (list A) :=
  match l with
  | [] => ret []
  | x :: l' =>
      let! keep := p x in
      let! xs := filterM p l' in
      ret (if keep then x :: xs else xs)
  end.

(** *** The reading part of the element API *)

Definition node_of (el : loc) : M node :=
  fun w => match store w !! el with
           | Some n => Some (n, w)
           | None => None
           end.

(** [el.get(key)] *)
Definition get (el : loc) (key : string) : M (option string) :=
  let! n := node_of el in
  ret (match n with
       | ElementNode _ a _ _ => a !! key
       | SpecialNode _ => None
       end).

(** [el.get(key, default)] *)
Definition get_default (el : loc) (key default : string) : M string :=
  let! v := get el key in
  ret (match v with
       | Some s => s
       | None => default
       end).

(** [el.text] *)
Definition text_of (el : loc) : M (option string) :=
  let! n := node_of el in
  ret (match n with
       | ElementNode _ _ t _ => t
       | SpecialNode t => t
       end).

(** [list(el)], the children a [for child in el] loop runs over. *)
Definition children_of (el : loc) : M (list loc) :=
  let! n := node_of el in
  ret (match n with
       | ElementNode _ _ _ cs => cs
       | SpecialNode _ => []
       end).

(** [etree.QName(el).localname], [None] when it raises. *)
Definition qname_localname (el : loc) : M (option string) :=
  let! n := node_of el in
  ret (match n with
       | ElementNode q _ _ _ => Some (localname q)
       | SpecialNode _ => None
       end).

Definition has_tag (q : QName) (el : loc) : M bool :=
  let! n := node_of el in
  ret (match n with
       | ElementNode q' _ _ _ => bool_decide (q' = q)
       | SpecialNode _ => false
       end).

(** [el.iterdescendants()] *)
Fixpoint iterdescendants (fuel : nat) (el : loc) : M (list loc) :=
  match fuel with
  | O => fail
  | S fuel' =>
      let! cs := children_of el in
      let! below :=
        mapM (fun c => let! ds := iterdescendants fuel' c in ret (c :: ds)) cs in
      ret (concat below)
  end.

(** [el.findall(".//tag")] *)
Definition findall (fuel : nat) (el : loc) (q : QName) : M (list loc) :=
  let! ds := iterdescendants fuel el in
  filterM (has_tag q) ds.

(** [el.find(".//tag")] *)
Definition find (fuel : nat) (el : loc) (q : QName) : M (option loc) :=
  let! found := findall fuel el q in
  ret (head found).

(** *** The writing part of the element API

    The interpreter never calls these; they are what a change of the
    document would look like. *)

(** [el.set(key, value)] *)
Definition set (el : loc) (key value : string) : M unit :=
  fun w => match store w !! el with
           | Some (ElementNode q a t cs) =>
               Some (tt, World (<[el := ElementNode q (<[key := value]> a) t cs]>
                                  (store w))
                               (cascade_required w))
           | _ => None
           end.

(** [el.text = value] *)
Definition set_text (el : loc) (value : option string) : M unit :=
  fun w => match store w !! el with
           | Some (ElementNode q a _ cs) =>
               Some (tt, World (<[el := ElementNode q a value cs]> (store w))
                               (cascade_required w))
           | Some (SpecialNode _) =>
               Some (tt, World (<[el := SpecialNode value]> (store w))
                               (cascade_required w))
           | None => None
           end.

(** *** The interpreter *)

(** [cascade_required = ...] *)
Definition assign_cascade_required (b : bool) : M unit :=
  fun w => Some (tt, World (store w) b).

Definition read_cascade_required : M bool :=
  fun w => Some (cascade_required w, w).

Definition extract_all_js (fuel : nat) (xfa_xml : loc) : M string :=
  let! scripts := findall fuel xfa_xml (xfa "script") in
  let! texts := mapM text_of scripts in
  ret (join nl (omap (fun t => if truthy t then t else None) texts)).

(** One [<option>] line of a choice list. *)
Definition option_of (item : loc) : M string :=
  let! text := text_of item in
  let! option_value := get_default item "value" (or_else text EmptyString) in
  let option_text := or_else text option_value in
  ret ("<option value='" +:+ option_value +:+ "'>" +:+ option_text
         +:+ "</option>").

(** One radio line of an exclusive group. *)
Definition radio_of (group_name cascade_attr : string) (choice : loc) : M string :=
  let! text := text_of choice in
  let! option_value := get_default choice "value" (or_else text EmptyString) in
  let option_label := or_else text option_value in
  ret ("<label><input type='radio' name='" +:+ group_name +:+ "' value='"
         +:+ option_value +:+ "'" +:+ cascade_attr +:+ "/> " +:+ option_label
         +:+ "</label>").

Fixpoint process_element (fuel : nat) (el : loc) : M string :=
  match fuel with
  | O => fail
  | S fuel' =>
      let! lname := qname_localname el in
      match lname with
      | None => ret EmptyString
      | Some lname =>
          let tag := lower lname in
          let! cascade := get el "cascade" in
          let! cascade_attr :=
            match cascade with
            | Some (String c s) =>
                let! _ := assign_cascade_required true in
                ret (" data-cascade='" +:+ String c s +:+ "'")
            | _ => ret EmptyString
            end in
          let! html_parts :=
            match classify tag with
            | Subform =>
                let! sf_name := get_default el "name" "Subform" in
                let! children := children_of el in
                let! parts := mapM (process_element fuel') children in
                ret ([ "<div class='subform'>"; "<h2>" +:+ sf_name +:+ "</h2>" ]
                     ++ parts ++ [ "</div>" ])
            | Field =>
                let! field_name := get_default el "name" "UnnamedField" in
                let! field_label := get_default el "label" field_name in
                let! field_value := get_default el "value" EmptyString in
                let! field_type := get_default el "type" "text" in
                let! ui_type_attr := get_default el "uiType" EmptyString in
                let ui_type := lower ui_type_attr in
                if contains ui_type "button"
                   || startswith (lower field_name) "btn"
                   || startswith (lower field_name) "button"
                   || endswith (lower field_name) "btn"
                then
                  ret [ "<div class='field'>";
                        "<button type='button' id='" +:+ field_name +:+ "' name='"
                          +:+ field_name +:+ "'" +:+ cascade_attr +:+ ">"
                          +:+ field_label +:+ "</button>";
                        "</div>" ]
                else
                  ret [ "<div class='field'>";
                        "<label for='" +:+ field_name +:+ "'>" +:+ field_label
                          +:+ "</label>";
                        "<input type='" +:+ field_type +:+ "' id='" +:+ field_name
                          +:+ "' name='" +:+ field_name +:+ "' value='"
                          +:+ field_value +:+ "'" +:+ cascade_attr +:+ " />";
                        "</div>" ]
            | Button =>
                let! text := text_of el in
                let btn_text := or_else text "Button" in
                let! btn_id := get_default el "name" "button" in
                ret [ "<div class='button'>";
                      "<button type='button' id='" +:+ btn_id +:+ "' name='"
                        +:+ btn_id +:+ "'>" +:+ btn_text +:+ "</button>";
                      "</div>" ]
            | Text =>
                let! text := text_of el in
                let txt := or_else text EmptyString in
                ret [ "<div class='static-text'>" +:+ txt +:+ "</div>" ]
            | TextEdit =>
                let! field_name := get_default el "name" "TextEdit" in
                let! field_value := get_default el "value" EmptyString in
                ret [ "<div class='textedit'>";
                      "<input type='text' id='" +:+ field_name +:+ "' name='"
                        +:+ field_name +:+ "' value='" +:+ field_value +:+ "'"
                        +:+ cascade_attr +:+ " />";
                      "</div>" ]
            | NumericEdit =>
                let! field_name := get_default el "name" "NumericEdit" in
                let! field_value := get_default el "value" EmptyString in
                ret [ "<div class='numericedit'>";
                      "<input type='number' id='" +:+ field_name +:+ "' name='"
                        +:+ field_name +:+ "' value='" +:+ field_value +:+ "'"
                        +:+ cascade_attr +:+ " />";
                      "</div>" ]
            | ChoiceList =>
                let! field_name := get_default el "name" "ChoiceList" in
                let! items := findall fuel el (plain "item") in
                let! options := mapM option_of items in
                ret ([ "<div class='choicelist'>";
                       "<label for='" +:+ field_name +:+ "'>" +:+ field_name
                         +:+ "</label>";
                       "<select id='" +:+ field_name +:+ "' name='" +:+ field_name
                         +:+ "'" +:+ cascade_attr +:+ ">" ]
                     ++ options ++ [ "</select>"; "</div>" ])
            | Draw =>
                let! text := text_of el in
                let span :=
                  match text with
                  | Some t =>
                      if truthy (Some t) && truthy (Some (strip t))
                      then [ "<span>" +:+ strip t +:+ "</span>" ]
                      else []
                  | None => []
                  end in
                let! children := children_of el in
                let! parts := mapM (process_element fuel') children in
                ret ([ "<div class='draw' style='border:1px solid #aaa; padding:5px;'>" ]
                     ++ span ++ parts ++ [ "</div>" ])
            | ExclGroup =>
                let! group_name := get_default el "name" "ExclGroup" in
                let! choices := findall fuel el (plain "exclchoice") in
                let! radios := mapM (radio_of group_name cascade_attr) choices in
                ret ([ "<div class='exclgroup'>" ] ++ radios ++ [ "</div>" ])
            | CheckButton =>
                let! field_name := get_default el "name" "CheckButton" in
                ret [ "<div class='checkbutton'>";
                      "<label><input type='checkbox' id='" +:+ field_name
                        +:+ "' name='" +:+ field_name +:+ "'" +:+ cascade_attr
                        +:+ "/> " +:+ field_name +:+ "</label>";
                      "</div>" ]
            | Other =>
                let! children := children_of el in
                mapM (process_element fuel') children
            end in
          ret (join nl html_parts)
      end
  end.

Definition build_ui_interpreter_stacked (fuel : nat) (xfa_xml : loc) : M string :=
  let! _ := assign_cascade_required false in
  let! found := find fuel xfa_xml (xfa "template") in
  let template := match found with Some t => t | None => xfa_xml end in
  let! rendered := process_element fuel template in
  let body_content :=
    "<div class='xfa-container'>" +:+ nl +:+ rendered +:+ nl +:+ "</div>" in
  let! required := read_cascade_required in
  let cascade_js := if required then cascade_js_text else EmptyString in
  let! all_js := extract_all_js fuel xfa_xml in
  let ui_js :=
    adapter +:+ nl +:+ xfa_runtime_js +:+ nl +:+ all_js +:+ nl
    +:+ default_bindings_js in
  let full_js := cascade_js +:+ nl +:+ ui_js in
  ret (html_doc ui_title body_content full_js).

End Heap.

Import Tree.

(** ** extract_xfa_data: decoding the XFA entry *)

(** [extract_xfa_data] from the point where the search of the PDF is over,
    the guard [if not xfa_data] and the part "Now decode the XFA data
    depending on its type", as a function of the object found.  Objects are
    told apart the way the source does, by [isinstance]; an object that is
    neither text nor bytes is kept with what [str()] shows for it and with
    its truth value.  A result [None] is the return value [None]: nothing was
    found, or an exception reached the enclosing [try]. *)

Module Pdf.

Inductive value : Type :=
| Bytes (b : list Byte.byte)
| Str (s : string)
| Object (shown : string) (truth : bool).

(** An element of the XFA array: a value, or an [IndirectObject] with what
    [get_object().get_data()] returns for it ([None] when that raises). *)
Inductive part : Type :=
| Direct (v : value)
| IndirectObject (data : option value).

Inductive xfa_object : Type :=
| XIndirect (data : option value)
| XList (items : list part)
| XDict (entries : list (string * value))
| XValue (v : value).

Section Decoding.

(** [b.decode('utf-8', errors='replace')] and [str(b)] for bytes [b]. *)
Variable decode : list Byte.byte -> string.
Variable str_of_bytes : list Byte.byte -> string.

(** [if isinstance(x, bytes): x = x.decode(...)] *)
Definition decode_if_bytes (v : value) : value :=
  match v with
  | Bytes b => Str (decode b)
  | _ => v
  end.

(** [sep.join(parts)], which raises on a part that is not text. *)
Fixpoint str_join (sep : string) (parts : list value) : option string :=
  match parts with
  | [] => Some EmptyString
  | Str p :: rest =>
      match rest with
      | [] => Some p
      | _ => option_map (fun r => p +:+ sep +:+ r) (str_join sep rest)
      end
  | _ :: _ => None
  end.

(** [range(0, n, 2)] *)
Definition range_step2 (n : nat) : list nat :=
  map (fun k => 2 * k) (seq 0 (Nat.div2 (n + 1))).

(** The loop over the XFA array: "Expect alternating keys and values". *)
Fixpoint list_parts (indices : list nat) (xfa_data : list part)
  : option (list value) :=
  match indices with
  | [] => Some []
  | i :: indices' =>
      if i + 1 <? length xfa_data then
        match xfa_data !! (i + 1) with
        | None => None
        | Some p =>
            match (match p with
                   | IndirectObject data => data
                   | Direct v => Some v
                   end) with
            | None => None
            | Some v =>
                option_map (cons (decode_if_bytes v)) (list_parts indices' xfa_data)
            end
        end
      else list_parts indices' xfa_data
  end.

(** [xfa_data[key]] on a dictionary kept as its items in insertion order. *)
Fixpoint dict_get (entries : list (string * value)) (key : string) : option value :=
  match entries with
  | [] => None
  | (k, v) :: rest => if String.eqb k key then Some v else dict_get rest key
  end.

Definition ordered_keys : list string := [ "preamble"; "config" ].

(** The two loops over the dictionary. *)
Definition dict_parts (xfa_data : list (string * value)) : list value :=
  omap (fun key => option_map decode_if_bytes (dict_get xfa_data key)) ordered_keys
  ++ omap (fun kv =>
             if existsb (String.eqb (fst kv)) ordered_keys then None
             else Some (decode_if_bytes (snd kv)))
          xfa_data.

(** [str(x)] when [x] is not text already. *)
Definition to_str (v : value) : string :=
  match v with
  | Str s => s
  | Bytes b => str_of_bytes b
  | Object shown _ => shown
  end.

Definition decode_xfa_data (xfa_data : xfa_object) : option string :=
  match xfa_data with
  | XIndirect data => option_map (fun v => to_str (decode_if_bytes v)) data
  | XList items => 
      match list_parts (range_step2 (length items)) items with
      | Some xml_parts => str_join nl xml_parts
      | None => None
      end
  | XDict entries => str_join nl (dict_parts entries)
  | XValue v => Some (to_str v)
  end.

(** [if not xfa_data]: the truth value of what was found. *)
Definition is_true (xfa_data : xfa_object) : bool :=
  match xfa_data with
  | XIndirect _ => true
  | XList [] => false
  | XList (_ :: _) => true
  | XDict [] => false
  | XDict (_ :: _) => true
  | XValue (Bytes []) => false
  | XValue (Bytes (_ :: _)) => true
  | XValue (Str EmptyString) => false
  | XValue (Str (String _ _)) => true
  | XValue (Object _ truth) => truth
  end.

(** The function from its guard on; [found] is [xfa_data] at that point,
    [None] when the search has left it at [None]. *)
Definition extract_xfa_data (found : option xfa_object) : option string :=
  match found with
  | None => None
  | Some xfa_data =>
      if is_true xfa_data then decode_xfa_data xfa_data else None
  end.

End Decoding.

End Pdf.

(** ** complete_xml *)

(** Python's string indexing, as [complete_xml] uses it.  An index is an
    integer; [find] answers [-1] when there is no occurrence, and a negative
    bound of a slice counts from the end. *)

Module Str.

(** [s[:n]] for a natural [n] *)
Fixpoint take (n : nat) (s : string) : string :=
  match n, s with
  | S n', String c s' => String c (take n' s')
  | _, _ => EmptyString
  end.

(** [s[n:]] for a natural [n] *)
Fixpoint drop (n : nat) (s : string) : string :=
  match n, s with
  | S n', String _ s' => drop n' s'
  | _, _ => s
  end.

(** The offset of the first occurrence of [sub] in [s]. *)
Fixpoint index (s sub : string) : option nat :=
  if startswith s sub then Some 0
  else match s with
       | EmptyString => None
       | String _ s' => option_map S (index s' sub)
       end.

(** A slice bound brought into [0 .. len(s)]. *)
Definition clamp (len : nat) (i : Z) : nat :=
  if (i <? 0)%Z then Z.to_nat (Z.max 0 (Z.of_nat len + i))
  else Nat.min len (Z.to_nat i).

(** [s.find(sub, start)] *)
Definition find_from (s sub : string) (start : Z) : Z :=
  if (Z.of_nat (String.length s) <? start)%Z then (-1)%Z
  else
    let from := clamp (String.length s) start in
    match index (drop from s) sub with
    | Some i => Z.of_nat (from + i)
    | None => (-1)%Z
    end.

(** [s.find(sub)] *)
Definition find (s sub : string) : Z := find_from s sub 0.

(** [s[a:]] *)
Definition slice_from (s : string) (a : Z) : string :=
  drop (clamp (String.length s) a) s.

(** [s[a:b]] *)
Definition slice (s : string) (a b : Z) : string :=
  let lo := clamp (String.length s) a in
  let hi := clamp (String.length s) b in
  take (hi - lo) (drop lo s).

End Str.

(** The one pattern the source hands to [re]: [<\?xml.*?\?>] under
    [re.DOTALL], an XML declaration up to the first [?>] that follows. *)

Module Re.

(** The length of the match of the pattern at the very start of [s], when
    there is one: [<?xml], then as few characters as possible, then [?>]. *)
Definition match_decl (s : string) : option nat :=
  if startswith s "<?xml"
  then option_map (fun k => 5 + k + 2) (Str.index (Str.drop 5 s) "?>")
  else None.

(** [re.sub(pattern, '', s)], scanning from the left: a match is dropped and
    the scan resumes after it, a character where nothing matches is copied.
    [skip] counts the characters of the current match still to drop. *)
Fixpoint sub_decls_from (skip : nat) (s : string) : string :=
  match s with
  | EmptyString => EmptyString
  | String c s' =>
      match skip with
      | S k => sub_decls_from k s'
      | O =>
          match match_decl s with
          | Some (S k) => sub_decls_from k s'
          | _ => String c (sub_decls_from 0 s')
          end
      end
  end.

Definition sub_decls (s : string) : string := sub_decls_from 0 s.

End Re.

(** The tail of [complete_xml], once the root element has been chosen. *)
Definition cut_to_root (xfa_str : string) (start_index : Z) (closing_tag : string)
  : string :=
  let end_index := Str.find_from xfa_str closing_tag start_index in
  if (end_index =? -1)%Z
  then Str.slice_from xfa_str start_index +:+ nl +:+ closing_tag
  else
    let end_index := (end_index + Z.of_nat (String.length closing_tag))%Z in
    Str.slice xfa_str start_index end_index.

Definition complete_xml (xfa_str : string) : string :=
  let xfa_str := lstrip xfa_str in
  let first_decl :=
    match Re.match_decl xfa_str with
    | Some n => Str.take n xfa_str
    | None => EmptyString
    end in
  let xfa_str := Re.sub_decls xfa_str in
  let xfa_str :=
    if truthy (Some first_decl) then first_decl +:+ xfa_str else xfa_str in
  if contains xfa_str "<xdp:xdp"
  then cut_to_root xfa_str (Str.find xfa_str "<xdp:xdp") "</xdp:xdp>"
  else if contains xfa_str "<config"
  then cut_to_root xfa_str (Str.find xfa_str "<config") "</config>"
  else xfa_str.

(** * Vocabulary of the properties *)

(** ** The renderer, branch by branch *)

Definition kind_of (el : element) : kind :=
  match el with
  | Element q _ _ _ => classify (lower (localname q))
  | Special _ => Other
  end.

(** The kinds whose branch iterates over the children. *)
Definition recurses (k : kind) : bool :=
  match k with
  | Subform | Draw | Other => true
  | _ => false
  end.

(** The [html_parts] of a node, given the fragments of its children. *)
Definition html_parts_of (el : element) (child_parts : list string) : list string :=
  let cascade_attr := cascade_attr_of (get el "cascade") in
  match kind_of el with
  | Subform =>
      [ "<div class='subform'>";
        "<h2>" +:+ get_default el "name" "Subform" +:+ "</h2>" ]
      ++ child_parts ++ [ "</div>" ]
  | Field => field_parts el cascade_attr
  | Button => button_parts el
  | Text => text_parts el
  | TextEdit => textedit_parts el cascade_attr
  | NumericEdit => numericedit_parts el cascade_attr
  | ChoiceList => choicelist_parts el cascade_attr
  | Draw =>
      [ "<div class='draw' style='border:1px solid #aaa; padding:5px;'>" ]
      ++ draw_span el ++ child_parts ++ [ "</div>" ]
  | ExclGroup => exclgroup_parts el cascade_attr
  | CheckButton => checkbutton_parts el cascade_attr
  | Other => child_parts
  end.

(** ** Reach of a render pass and of a path query *)

(** [visits el n]: rendering [el] calls [process_element] on [n].  Only the
    [subform], [draw] and unrecognised branches descend into children. *)
Inductive visits : element -> element -> Prop :=
| visits_here el : visits el el
| visits_below q a t cs c n :
    recurses (kind_of (Element q a t cs)) = true ->
    c ∈ cs -> visits c n ->
    visits (Element q a t cs) n.

(** [descendant el n]: [n] lies strictly below [el], at any depth. *)
Inductive descendant : element -> element -> Prop :=
| descendant_child q a t cs c :
    c ∈ cs -> descendant (Element q a t cs) c
| descendant_deeper q a t cs c n :
    c ∈ cs -> descendant c n -> descendant (Element q a t cs) n.

(** The test [if cascade:] of the source. *)
Definition bears_cascade (n : element) : Prop := truthy (get n "cascade") = true.

(** ** Linkage script and marker (C1, C2) *)

(** The linkage script occupies the first slot of the script section; it is
    present when that slot holds the script text and absent when it is empty. *)
Definition linkage_script_present (xfa_xml : element) : Prop :=
  cascade_js xfa_xml = cascade_js_text.

(** Every node of the input tree, root included. *)
Definition nodes (xfa_xml : element) : list element :=
  xfa_xml :: iterdescendants xfa_xml.

Definition carries_linkage_attribute (n : element) : Prop :=
  is_Some (get n "cascade").

(** The statement as the specification words it. *)
Definition linkage_anywhere_claim (xfa_xml : element) : Prop :=
  linkage_script_present xfa_xml <->
  exists n, n ∈ nodes xfa_xml /\ carries_linkage_attribute n.

(** A field whose child carries the attribute: the [field] branch never
    looks at children. *)
Definition field_with_cascade_child : element :=
  Element (xfa "field") ∅ None
    [ Element (xfa "extras") {[ "cascade" := "g1" ]} None [] ].

(** The marker attribute for linkage value [c]. *)
Definition marker (c : string) : string := " data-cascade='" +:+ c +:+ "'".

(** Whether rendering [el] itself emits an interactive control. *)
Definition emits_control (el : element) : bool :=
  match kind_of el with
  | Field | Button | TextEdit | NumericEdit | ChoiceList | CheckButton => true
  | ExclGroup =>
      match findall el (plain "exclchoice") with [] => false | _ => true end
  | _ => false
  end.

(** The statement as the specification words it, for one node: if the node
    bears the attribute and emits a control, the marker with the attribute's
    value occurs in what it emits. *)
Definition marker_claim (el : element) : Prop :=
  forall c, get el "cascade" = Some c -> emits_control el = true ->
            contains (fst (process_element el false)) (marker c) = true.

(** A field bearing an empty linkage attribute: [if cascade:] is false. *)
Definition field_with_empty_cascade : element :=
  Element (xfa "field") {[ "cascade" := EmptyString ]} None [].

(** A [button] element bearing the attribute: its branch formats the control
    without [cascade_attr], although the flag has been set for it. *)
Definition button_with_cascade : element :=
  Element (xfa "button") {[ "cascade" := "g1" ]} (Some "Go") [].

(** ** Sample nodes *)

Definition textedit_in_group : element :=
  Element (xfa "textEdit") {[ "cascade" := "grp1" ]} None [].

Definition nested_choicelist : element :=
  Element (xfa "choiceList") {[ "name" := "colour" ]} None
    [ Element (plain "item") {[ "value" := "r" ]} (Some "Red") [];
      Element (plain "group") ∅ None
        [ Element (plain "item") ∅ (Some "Green") [];
          Element (plain "item") {[ "value" := "b" ]} None [] ] ].

Definition nested_exclgroup : element :=
  Element (xfa "exclGroup") {[ "name" := "size" ]} None
    [ Element (plain "exclchoice") {[ "value" := "s" ]} (Some "Small") [];
      Element (plain "row") ∅ None
        [ Element (plain "exclchoice") ∅ (Some "Large") [] ] ].

(** The trees of the end-to-end scenarios. *)
Definition page_with_text_field : element :=
  Element (xfa "subform") {[ "name" := "Page1" ]} None
    [ Element (xfa "field") {[ "name" := "txtName"; "type" := "text" ]} None [] ].

Definition submit_field : element :=
  Element (xfa "field") {[ "name" := "btnSubmit" ]} None [].

(** ** Fields as buttons (C4) *)

(** The two shapes a field can take. *)
Definition field_button_lines (el : element) : list string :=
  let n := get_default el "name" "UnnamedField" in
  [ "<div class='field'>";
    "<button type='button' id='" +:+ n +:+ "' name='" +:+ n +:+ "'"
      +:+ cascade_attr_of (get el "cascade") +:+ ">" +:+ get_default el "label" n
      +:+ "</button>";
    "</div>" ].

Definition field_input_lines (el : element) : list string :=
  let n := get_default el "name" "UnnamedField" in
  [ "<div class='field'>";
    "<label for='" +:+ n +:+ "'>" +:+ get_default el "label" n +:+ "</label>";
    "<input type='" +:+ get_default el "type" "text" +:+ "' id='" +:+ n
      +:+ "' name='" +:+ n +:+ "' value='" +:+ get_default el "value" EmptyString
      +:+ "'" +:+ cascade_attr_of (get el "cascade") +:+ " />";
    "</div>" ].

(** The name test, on the lower-cased name. *)
Definition name_marks_button (el : element) : bool :=
  let n := lower (get_default el "name" "UnnamedField") in
  startswith n "btn" || startswith n "button" || endswith n "btn".

(** The statement as the specification words it: the hint attribute is
    searched for the token as it stands, only the name is case-folded. *)
Definition field_claim (el : element) : Prop :=
  kind_of el = Field ->
  if contains (get_default el "uiType" EmptyString) "button" || name_marks_button el
  then fst (process_element el false) = join nl (field_button_lines el)
  else fst (process_element el false) = join nl (field_input_lines el).

(** A field whose hint is capitalised. *)
Definition field_with_capital_hint : element :=
  Element (xfa "field") {[ "name" := "submit"; "uiType" := "Button" ]} None [].

(** ** Script aggregation and the script section (C5, C7) *)

(** The text a node contributes to the script blob: its direct text when it
    is a [script] element of the XFA namespace with non-empty text. *)
Definition script_text (n : element) : option string :=
  if has_tag (xfa "script") n && truthy (text_of n) then text_of n else None.

(** The statement as the specification words it: every scripting node of the
    tree contributes, the root among them. *)
Definition aggregation_claim (xfa_xml : element) : Prop :=
  extract_all_js xfa_xml = join nl (omap script_text (nodes xfa_xml)).

(** A tree that consists of one scripting node. *)
Definition lone_script : element :=
  Element (xfa "script") ∅ (Some "a();") [].

Definition host_form_shim : string := block host_form_lines.
Definition font_stub : string := block font_stub_lines.
Definition guarded_executor : string := block executor_lines.
Definition advanced_namespace : string := block advanced_lines.

(** ** Values written as they stand (C10) *)

(** The value of an attribute as it stands in the document, or [otherwise]
    when the node has no such attribute. *)
Definition attr_or (n : element) (key otherwise : string) : string :=
  match get n key with
  | Some v => v
  | None => otherwise
  end.

(** The text of a node as it stands, or [otherwise] when the node has no
    text or an empty one. *)
Definition text_or (n : element) (otherwise : string) : string :=
  match text_of n with
  | Some (String c r) => String c r
  | _ => otherwise
  end.

Definition raw_text (n : element) : string :=
  match text_of n with
  | Some t => t
  | None => EmptyString
  end.

(** The marker with the [cascade] value as it stands; nothing for a missing
    or empty value. *)
Definition written_marker (n : element) : string :=
  match get n "cascade" with
  | Some (String c r) => marker (String c r)
  | _ => EmptyString
  end.

Definition written_value (item : element) : string :=
  attr_or item "value" (text_or item EmptyString).

Definition written_label (item : element) : string :=
  text_or item (written_value item).

(** Only whitespace. *)
Fixpoint blank (s : string) : bool :=
  match s with
  | EmptyString => true
  | String c s' => is_space c && blank s'
  end.

(** [shown] is [raw] without its leading and trailing whitespace: what is
    cut off on either side is whitespace, and [shown] neither begins nor ends
    with whitespace. *)
Definition trimmed (raw shown : string) : Prop :=
  exists before after,
    raw = before +:+ shown +:+ after
    /\ blank before = true /\ blank after = true
    /\ (forall c r, shown = String c r -> is_space c = false)
    /\ (forall r c, shown = r +:+ String c EmptyString -> is_space c = false).

(** The lines of a node's fragment when every value is written as it stands;
    [shown] is what a draw shows of its text. *)
Definition verbatim_lines (el : element) (shown : string) : list string :=
  let inner := map (fun c => fst (process_element c false)) (children_of el) in
  let mark := written_marker el in
  match kind_of el with
  | Subform =>
      [ "<div class='subform'>";
        "<h2>" +:+ attr_or el "name" "Subform" +:+ "</h2>" ]
      ++ inner ++ [ "</div>" ]
  | Field =>
      let name := attr_or el "name" "UnnamedField" in
      let label := attr_or el "label" name in
      if field_is_button el then
        [ "<div class='field'>";
          "<button type='button' id='" +:+ name +:+ "' name='" +:+ name +:+ "'"
            +:+ mark +:+ ">" +:+ label +:+ "</button>";
          "</div>" ]
      else
        [ "<div class='field'>";
          "<label for='" +:+ name +:+ "'>" +:+ label +:+ "</label>";
          "<input type='" +:+ attr_or el "type" "text" +:+ "' id='" +:+ name
            +:+ "' name='" +:+ name +:+ "' value='"
            +:+ attr_or el "value" EmptyString +:+ "'" +:+ mark +:+ " />";
          "</div>" ]
  | Button =>
      let name := attr_or el "name" "button" in
      [ "<div class='button'>";
        "<button type='button' id='" +:+ name +:+ "' name='" +:+ name +:+ "'>"
          +:+ text_or el "Button" +:+ "</button>";
        "</div>" ]
  | Text =>
      [ "<div class='static-text'>" +:+ text_or el EmptyString +:+ "</div>" ]
  | TextEdit =>
      let name := attr_or el "name" "TextEdit" in
      [ "<div class='textedit'>";
        "<input type='text' id='" +:+ name +:+ "' name='" +:+ name
          +:+ "' value='" +:+ attr_or el "value" EmptyString +:+ "'" +:+ mark
          +:+ " />";
        "</div>" ]
  | NumericEdit =>
      let name := attr_or el "name" "NumericEdit" in
      [ "<div class='numericedit'>";
        "<input type='number' id='" +:+ name +:+ "' name='" +:+ name
          +:+ "' value='" +:+ attr_or el "value" EmptyString +:+ "'" +:+ mark
          +:+ " />";
        "</div>" ]
  | ChoiceList =>
      let name := attr_or el "name" "ChoiceList" in
      [ "<div class='choicelist'>";
        "<label for='" +:+ name +:+ "'>" +:+ name +:+ "</label>";
        "<select id='" +:+ name +:+ "' name='" +:+ name +:+ "'" +:+ mark
          +:+ ">" ]
      ++ map (fun item =>
                "<option value='" +:+ written_value item +:+ "'>"
                  +:+ written_label item +:+ "</option>")
           (findall el (plain "item"))
      ++ [ "</select>"; "</div>" ]
  | Draw =>
      [ "<div class='draw' style='border:1px solid #aaa; padding:5px;'>" ]
      ++ match shown with
         | EmptyString => []
         | String _ _ => [ "<span>" +:+ shown +:+ "</span>" ]
         end
      ++ inner ++ [ "</div>" ]
  | ExclGroup =>
      let name := attr_or el "name" "ExclGroup" in
      [ "<div class='exclgroup'>" ]
      ++ map (fun choice =>
                "<label><input type='radio' name='" +:+ name +:+ "' value='"
                  +:+ written_value choice +:+ "'" +:+ mark +:+ "/> "
                  +:+ written_label choice +:+ "</label>")
           (findall el (plain "exclchoice"))
      ++ [ "</div>" ]
  | CheckButton =>
      let name := attr_or el "name" "CheckButton" in
      [ "<div class='checkbutton'>";
        "<label><input type='checkbox' id='" +:+ name +:+ "' name='" +:+ name
          +:+ "'" +:+ mark +:+ "/> " +:+ name +:+ "</label>";
        "</div>" ]
  | Other => inner
  end.

(** The branches that write the node's own text. *)
Definition writes_own_text (k : kind) : bool :=
  match k with
  | Button | Text | Draw => true
  | _ => false
  end.

(** The statement as the specification words it, for direct text: the text
    of a node whose branch writes it is found in the fragment, character for
    character. *)
Definition text_verbatim_claim (el : element) : Prop :=
  writes_own_text (kind_of el) = true ->
  forall t, text_of el = Some t ->
            contains (fst (process_element el false)) t = true.

(** A draw whose text has whitespace around it. *)
Definition padded_draw : element :=
  Element (xfa "draw") ∅ (Some "  Tom & Jerry's <b>  ") [].

(** A static text and a button with markup characters in their text. *)
Definition text_with_markup : element :=
  Element (xfa "text") ∅ (Some " a < b && 'c' > d ") [].

Definition button_with_markup : element :=
  Element (xfa "button") {[ "name" := "go<1>" ]} (Some "Save & <i>close</i>") [].

(** ** Items and choices by local name (C3, C6) *)

(** A node goes by [name] when its local name, lower-cased, is [name]: the
    way [process_element] names the node it renders, whatever the namespace
    and the letter case of the tag. *)
Definition goes_by (name : string) (n : element) : bool :=
  match qname_localname n with
  | Some l => String.eqb (lower l) name
  | None => false
  end.

(** A choice list and an exclusive group as they stand in a document whose
    elements are in the XFA namespace. *)
Definition xfa_choicelist : element :=
  Element (xfa "choiceList") {[ "name" := "colour" ]} None
    [ Element (xfa "item") {[ "value" := "r" ]} (Some "Red") [];
      Element (xfa "item") ∅ (Some "Green") [] ].

Definition xfa_exclgroup : element :=
  Element (xfa "exclGroup") {[ "name" := "size" ]} None
    [ Element (xfa "exclChoice") {[ "value" := "s" ]} (Some "Small") [];
      Element (xfa "exclChoice") ∅ (Some "Large") [] ].

(** The same group outside any namespace, its choices spelt [exclChoice]. *)
Definition plain_exclgroup : element :=
  Element (plain "exclGroup") {[ "name" := "size" ]} None
    [ Element (plain "exclChoice") {[ "value" := "s" ]} (Some "Small") [];
      Element (plain "exclChoice") ∅ (Some "Large") [] ].

(** ** Stores that hold a tree (C8, C9) *)

(** [represents h l t]: in the store [h], the handle [l] is the root of a
    tree of nodes whose shape and contents are those of [t]. *)
Fixpoint represents (h : gmap positive Heap.node) (l : positive) (t : element) : Prop :=
  match t with
  | Special tx => h !! l = Some (Heap.SpecialNode tx)
  | Element q a tx cs =>
      exists ls,
        h !! l = Some (Heap.ElementNode q a tx ls) /\
        (fix all (cs : list element) (ls : list positive) : Prop :=
           match cs, ls with
           | [], [] => True
           | c :: cs', l' :: ls' => represents h l' c /\ all cs' ls'
           | _, _ => False
           end) cs ls
  end.

(** The number of levels of a tree; it bounds the fuel a traversal needs. *)
Fixpoint height (t : element) : nat :=
  match t with
  | Special _ => 0
  | Element _ _ _ cs => S (foldr Nat.max 0 (map height cs))
  end.

(** A computation that leaves the document as it found it. *)
Definition preserves_store {A} (m : Heap.M A) : Prop :=
  forall w a w', m w = Some (a, w') -> Heap.store w' = Heap.store w.

(** A two-node document in the store, and the tree it represents. *)
Definition page_store : gmap positive Heap.node :=
  {[ 1%positive :=
       Heap.ElementNode (xfa "subform") {[ "name" := "Page1" ]} None [2%positive];
     2%positive :=
       Heap.ElementNode (xfa "field")
         {[ "name" := "txtName"; "cascade" := "grp1" ]} None [] ]}.

Definition page_tree : element :=
  Element (xfa "subform") {[ "name" := "Page1" ]} None
    [ Element (xfa "field") {[ "name" := "txtName"; "cascade" := "grp1" ]}
        None [] ].

(** A field whose value holds a quote, an ampersand and angle brackets. *)
Definition field_with_markup_value : element :=
  Element (xfa "field") {[ "name" := "who"; "value" := "O'Neil & <b>" ]} None [].

(** ** Further sample inputs *)

(** An unrecognised wrapper around a comment and a text node. *)
Definition wrapped_text : element :=
  Element (xfa "pageArea") ∅ None
    [ Special (Some "note"); Element (xfa "text") ∅ (Some "Hello") [] ].

(** A [draw] whose own text is blank. *)
Definition blank_draw : element :=
  Element (xfa "draw") ∅ (Some "  ")
    [ Element (xfa "text") ∅ (Some "Hello") [] ].

(** A field that has a child. *)
Definition field_with_child : element :=
  Element (xfa "field") {[ "name" := "age" ]} None
    [ Element (xfa "text") ∅ (Some "ignored") [] ].

(** ** Vocabulary for complete_xml *)

(** The text [complete_xml] searches for a root: leading whitespace gone,
    every XML declaration removed, the first one put back at the front. *)
Definition declarations_merged (xfa_str : string) : string :=
  let xfa_str := lstrip xfa_str in
  let first_decl :=
    match Re.match_decl xfa_str with
    | Some n => Str.take n xfa_str
    | None => EmptyString
    end in
  let xfa_str := Re.sub_decls xfa_str in
  if truthy (Some first_decl) then first_decl +:+ xfa_str else xfa_str.

(** An XML declaration with the given body. *)
Definition declaration (body : string) : string := "<?xml" +:+ body +:+ "?>".

(** A text made of declarations, each followed by a stretch of other text:
    [(body, text)] stands for [<?xml body ?> text]. *)
Fixpoint assemble (segments : list (string * string)) : string :=
  match segments with
  | [] => EmptyString
  | (body, text) :: rest => declaration body +:+ text +:+ assemble rest
  end.

(** The same text without its declarations. *)
Fixpoint texts_of (segments : list (string * string)) : string :=
  match segments with
  | [] => EmptyString
  | (_, text) :: rest => text +:+ texts_of rest
  end.

(** A declaration body holds no [?>]; a stretch of text holds no [<?xml]. *)
Definition well_segmented (segment : string * string) : Prop :=
  contains (fst segment) "?>" = false
  /\ contains (snd segment) "<?xml" = false.

(** ** Vocabulary for the decoding of the XFA entry *)

(** An array of alternating keys and values. *)
Fixpoint interleave (pairs : list (Pdf.part * Pdf.part)) : list Pdf.part :=
  match pairs with
  | [] => []
  | (key, value) :: rest => key :: value :: interleave rest
  end.

(** The text a value stands for: itself, or its bytes decoded; an object of
    another kind has none. *)
Definition value_text (decode : list Byte.byte -> string) (v : Pdf.value)
  : option string :=
  match v with
  | Pdf.Str s => Some s
  | Pdf.Bytes b => Some (decode b)
  | Pdf.Object _ _ => None
  end.

(** The text an array element contributes, when it has one. *)
Definition part_text (decode : list Byte.byte -> string) (p : Pdf.part)
  : option string :=
  match p with
  | Pdf.Direct v => value_text decode v
  | Pdf.IndirectObject (Some v) => value_text decode v
  | Pdf.IndirectObject None => None
  end.

(** All the results, or nothing when one is missing. *)
Fixpoint all_some {A B} (f : A -> option B) (l : list A) : option (list B) :=
  match l with
  | [] => Some []
  | x :: rest =>
      match f x, all_some f rest with
      | Some y, Some ys => Some (y :: ys)
      | _, _ => None
      end
  end.

(** What the loop over the array appends for an element. *)
Definition part_value (decode : list Byte.byte -> string) (p : Pdf.part)
  : option Pdf.value :=
  option_map (Pdf.decode_if_bytes decode)
    match p with
    | Pdf.IndirectObject data => data
    | Pdf.Direct v => Some v
    end.

Definition str_only (v : Pdf.value) : option string :=
  match v with
  | Pdf.Str s => Some s
  | _ => None
  end.

(** A stand-in for the codec in examples: one character per byte. *)
Definition latin1 (b : list Byte.byte) : string :=
  string_of_list_ascii (map ascii_of_byte b).

(** The entries under a key, and those under neither of the two keys that
    go first. *)
Definition entries_under (key : string) (entries : list (string * Pdf.value))
  : list (string * Pdf.value) :=
  List.filter (fun kv => String.eqb (fst kv) key) entries.

Definition other_entries (entries : list (string * Pdf.value))
  : list (string * Pdf.value) :=
  List.filter
    (fun kv => negb (String.eqb (fst kv) "preamble")
               && negb (String.eqb (fst kv) "config")) entries.

Definition preamble_config_first (entries : list (string * Pdf.value))
  : list (string * Pdf.value) :=
  entries_under "preamble" entries ++ entries_under "config" entries
  ++ other_entries entries.


(** * Lemmas and theorems *)

Lemma process_element_unfold q a t cs flag :
  let el := Element q a t cs in
  process_element el flag =
    let flag1 := if truthy (get el "cascade") then true else flag in
    if recurses (kind_of el) then
      (join nl (html_parts_of el (fst (process_children cs flag1))),
       snd (process_children cs flag1))
    else (join nl (html_parts_of el []), flag1).
Proof.
  cbv zeta. unfold html_parts_of, kind_of.
  change (process_element (Element q a t cs) flag) with
    (bind (if truthy (get (Element q a t cs) "cascade")
           then set_cascade_required else ret tt)
       (fun _ =>
          bind
            (match classify (lower (localname q)) with
             | Subform =>
                 bind (process_children cs) (fun parts =>
                   ret ([ "<div class='subform'>";
                          "<h2>" +:+ get_default (Element q a t cs) "name" "Subform"
                            +:+ "</h2>" ] ++ parts ++ [ "</div>" ]))
             | Field =>
                 ret (field_parts (Element q a t cs)
                        (cascade_attr_of (get (Element q a t cs) "cascade")))
             | Button => ret (button_parts (Element q a t cs))
             | Text => ret (text_parts (Element q a t cs))
             | TextEdit =>
                 ret (textedit_parts (Element q a t cs)
                        (cascade_attr_of (get (Element q a t cs) "cascade")))
             | NumericEdit =>
                 ret (numericedit_parts (Element q a t cs)
                        (cascade_attr_of (get (Element q a t cs) "cascade")))
             | ChoiceList =>
                 ret (choicelist_parts (Element q a t cs)
                        (cascade_attr_of (get (Element q a t cs) "cascade")))
             | Draw =>
                 bind (process_children cs) (fun parts =>
                   ret ([ "<div class='draw' style='border:1px solid #aaa; padding:5px;'>" ]
                        ++ draw_span (Element q a t cs) ++ parts ++ [ "</div>" ]))
             | ExclGroup =>
                 ret (exclgroup_parts (Element q a t cs)
                        (cascade_attr_of (get (Element q a t cs) "cascade")))
             | CheckButton =>
                 ret (checkbutton_parts (Element q a t cs)
                        (cascade_attr_of (get (Element q a t cs) "cascade")))
             | Other => process_children cs
             end)
            (fun html_parts => ret (join nl html_parts))) flag).
  unfold bind, ret, set_cascade_required.
  destruct (truthy (get (Element q a t cs) "cascade"));
    destruct (classify (lower (localname q))); cbn [recurses];
    try reflexivity;
    match goal with
    | |- context [process_children cs ?f] => destruct (process_children cs f)
    end; reflexivity.
Qed.

(** ** Which nodes a render pass reaches *)

Lemma process_special t flag : process_element (Special t) flag = (EmptyString, flag).
Proof. reflexivity. Qed.

Lemma process_children_cons c cs flag :
  process_children (c :: cs) flag =
    (fst (process_element c flag)
       :: fst (process_children cs (snd (process_element c flag))),
     snd (process_children cs (snd (process_element c flag)))).
Proof.
  cbn [process_children]. unfold bind, ret.
  destruct (process_element c flag) as [part f1]. cbn [fst snd].
  destruct (process_children cs f1). reflexivity.
Qed.

Lemma visits_special t n : visits (Special t) n -> n = Special t.
Proof. inversion 1; reflexivity. Qed.

Lemma process_children_flag cs :
  Forall (fun c => forall flag,
            snd (process_element c flag) = true <->
            flag = true \/ exists n, visits c n /\ bears_cascade n) cs ->
  forall flag,
    snd (process_children cs flag) = true <->
    flag = true \/ exists c n, c ∈ cs /\ visits c n /\ bears_cascade n.
Proof.
  induction 1 as [|c l Hc Hl IHl]; intros flag.
  - cbn. split; [auto|]. intros [H|(c & n & Hin & _)]; [exact H|].
    inversion Hin.
  - rewrite process_children_cons. cbn [snd]. rewrite IHl, Hc. split.
    + intros [[H|(n & Hv & Hb)]|(c' & n & Hin & Hv & Hb)].
      * left; exact H.
      * right. exists c, n. split; [left|]; auto.
      * right. exists c', n. split; [right; exact Hin|]; auto.
    + intros [H|(c' & n & Hin & Hv & Hb)].
      * left; left; exact H.
      * apply elem_of_cons in Hin as [->|Hin].
        -- left; right. exists n; auto.
        -- right. exists c', n; auto.
Qed.

(** The flag after rendering [el] is set exactly when it was set before or
    the pass reached a node with a non-empty [cascade] attribute. *)
Lemma process_element_flag el :
  forall flag,
    snd (process_element el flag) = true <->
    flag = true \/ exists n, visits el n /\ bears_cascade n.
Proof.
  induction el as [t|q a t cs IH] using element_ind; intros flag.
  - rewrite process_special. cbn [snd]. split; [auto|].
    intros [H|(n & Hv & Hb)]; [exact H|].
    apply visits_special in Hv. subst n. discriminate Hb.
  - pose proof (process_element_unfold q a t cs flag) as E. cbv zeta in E.
    rewrite E. clear E.
    destruct (truthy (get (Element q a t cs) "cascade")) eqn:Hc.
    + assert (Hhere : exists n, visits (Element q a t cs) n /\ bears_cascade n)
        by (eexists; split; [constructor | exact Hc]).
      destruct (recurses (kind_of (Element q a t cs))); cbn [snd]; [|tauto].
      rewrite (process_children_flag cs IH). tauto.
    + assert (Hself : ~ bears_cascade (Element q a t cs))
        by (unfold bears_cascade; congruence).
      destruct (recurses (kind_of (Element q a t cs))) eqn:Hr; cbn [snd].
      * rewrite (process_children_flag cs IH). split.
        -- intros [H|(c & n & Hin & Hv & Hb)]; [auto|].
           right. exists n. split; [|exact Hb].
           eapply visits_below; eauto.
        -- intros [H|(n & Hv & Hb)]; [auto|].
           inversion Hv; subst; [contradiction|].
           right. eauto.
      * split; [auto|]. intros [H|(n & Hv & Hb)]; [exact H|].
        inversion Hv; subst; [contradiction|congruence].
Qed.

(** The rendered fragment does not depend on the incoming flag. *)
Lemma process_element_fragment el :
  forall flag flag', fst (process_element el flag) = fst (process_element el flag').
Proof.
  induction el as [t|q a t cs IH] using element_ind; intros flag flag'.
  - reflexivity.
  - pose proof (process_element_unfold q a t cs) as E. cbv zeta in E.
    rewrite !E. clear E.
    assert (Hcs : forall f f', fst (process_children cs f) = fst (process_children cs f')).
    { induction IH as [|c l Hc Hl IHl]; intros f f'; [reflexivity|].
      rewrite !process_children_cons. cbn [fst]. f_equal; [apply Hc|apply IHl]. }
    destruct (recurses _); cbn [fst]; [|reflexivity].
    f_equal. f_equal. apply Hcs.
Qed.

Lemma iterdescendants_element q a t cs :
  iterdescendants (Element q a t cs) =
    concat (map (fun c => c :: iterdescendants c) cs).
Proof.
  cbn [iterdescendants]. induction cs as [|c l IHl]; [reflexivity|].
  cbn [map concat]. rewrite <- IHl. reflexivity.
Qed.

(** [iterdescendants] lists exactly the nodes strictly below [el]. *)
Lemma elem_of_iterdescendants el :
  forall n, n ∈ iterdescendants el <-> descendant el n.
Proof.
  induction el as [t|q a t cs IH] using element_ind; intros n.
  - cbn. split; [intros H; inversion H | inversion 1].
  - rewrite iterdescendants_element, list_elem_of_In, in_concat.
    rewrite Forall_forall in IH. split.
    + intros (l & Hl & Hn). apply in_map_iff in Hl as (c & <- & Hc).
      apply list_elem_of_In in Hc. destruct Hn as [->|Hn].
      * constructor; exact Hc.
      * eapply descendant_deeper; [exact Hc|].
        apply IH; [assumption|]. apply list_elem_of_In; exact Hn.
    + intros H. inversion H as [? ? ? ? c Hc|? ? ? ? c ? Hc Hd]; subst.
      * exists (n :: iterdescendants n). split; [|left; reflexivity].
        apply in_map_iff. exists n. split; [reflexivity|].
        apply list_elem_of_In; exact Hc.
      * exists (c :: iterdescendants c). split.
        -- apply in_map_iff. exists c. split; [reflexivity|].
           apply list_elem_of_In; exact Hc.
        -- right. apply list_elem_of_In. apply IH; assumption.
Qed.

(** [findall] returns the descendants with the tag, at any depth. *)
Lemma elem_of_findall el q n :
  n ∈ findall el q <-> descendant el n /\ has_tag q n = true.
Proof.
  unfold findall. rewrite list_elem_of_In, filter_In, <- list_elem_of_In.
  rewrite elem_of_iterdescendants. reflexivity.
Qed.

Lemma cascade_js_text_nonempty : cascade_js_text <> EmptyString.
Proof. unfold cascade_js_text, block. discriminate. Qed.

(** ** C1: when the linkage script is injected *)

(** The child of the field carries the attribute, the document holds no
    linkage script: the statement with "anywhere in the tree" fails here. *)
Lemma linkage_anywhere_counterexample :
  (exists n, n ∈ nodes field_with_cascade_child /\ get n "cascade" = Some "g1")
  /\ cascade_js field_with_cascade_child = EmptyString
  /\ ~ linkage_anywhere_claim field_with_cascade_child.
Proof.
  assert (Hn : exists n, n ∈ nodes field_with_cascade_child
                         /\ get n "cascade" = Some "g1").
  { eexists. split; [right; left|]. vm_compute. reflexivity. }
  assert (Hjs : cascade_js field_with_cascade_child = EmptyString)
    by (vm_compute; reflexivity).
  split; [exact Hn|split; [exact Hjs|]].
  unfold linkage_anywhere_claim, linkage_script_present. rewrite Hjs.
  intros [_ H]. apply cascade_js_text_nonempty. symmetry. apply H.
  destruct Hn as (n & Hin & Hget). exists n. split; [exact Hin|].
  unfold carries_linkage_attribute. rewrite Hget. eexists. reflexivity.
Qed.

(** C1 (amended): the linkage script is present in the script section exactly
    when the render pass, started at the template node, reaches a node whose
    [cascade] attribute is non-empty; otherwise its slot is empty.  Nodes the
    pass does not reach, and empty attribute values, do not count. *)
Theorem linkage_script_iff_rendered_cascade (xfa_xml : element) :
  (linkage_script_present xfa_xml <->
     exists n, visits (template_of xfa_xml) n /\ bears_cascade n)
  /\ (~ linkage_script_present xfa_xml -> cascade_js xfa_xml = EmptyString)
  /\ build_ui_interpreter_stacked xfa_xml =
       html_doc ui_title (body_content xfa_xml)
         (cascade_js xfa_xml +:+ nl +:+ ui_js xfa_xml).
Proof.
  split; [|split; [|reflexivity]];
    unfold linkage_script_present, cascade_js, render_pass;
    pose proof (process_element_flag (template_of xfa_xml) false) as Hf;
    destruct (snd (process_element (template_of xfa_xml) false)) eqn:E.
  - split; [intros _|reflexivity].
    destruct (proj1 Hf eq_refl) as [H|H]; [discriminate|exact H].
  - split.
    + intros H. symmetry in H. destruct (cascade_js_text_nonempty H).
    + intros H. assert (false = true) by (apply Hf; right; exact H).
      discriminate.
  - intros H. destruct H. reflexivity.
  - reflexivity.
Qed.

(** ** C2: the marker on emitted controls *)

Lemma cascade_attr_of_some c :
  c <> EmptyString -> cascade_attr_of (Some c) = marker c.
Proof. destruct c; [congruence|reflexivity]. Qed.

Lemma process_leaf el flag :
  recurses (kind_of el) = false ->
  process_element el flag =
    (join nl (html_parts_of el []),
     if truthy (get el "cascade") then true else flag).
Proof.
  destruct el as [q a t cs|t]; [|discriminate].
  intros Hr. pose proof (process_element_unfold q a t cs flag) as E.
  cbv zeta in E. rewrite E, Hr. reflexivity.
Qed.

(** A field with [cascade=""] bears the attribute and emits an input, and
    the input has no marker. *)
Lemma marker_claim_counterexample :
  get field_with_empty_cascade "cascade" = Some EmptyString
  /\ process_element field_with_empty_cascade false =
       (join nl [ "<div class='field'>";
                  "<label for='UnnamedField'>UnnamedField</label>";
                  "<input type='text' id='UnnamedField' name='UnnamedField' value='' />";
                  "</div>" ], false)
  /\ ~ marker_claim field_with_empty_cascade.
Proof.
  split; [vm_compute; reflexivity|split; [vm_compute; reflexivity|]].
  intros H. specialize (H EmptyString). vm_compute in H.
  specialize (H eq_refl eq_refl). discriminate H.
Qed.

(** The [button] branch: the flag is set, the control has no marker. *)
Lemma button_omits_marker :
  process_element button_with_cascade false =
    (join nl [ "<div class='button'>";
               "<button type='button' id='button' name='button'>Go</button>";
               "</div>" ], true)
  /\ ~ marker_claim button_with_cascade.
Proof.
  split; [vm_compute; reflexivity|].
  intros H. specialize (H "g1"). vm_compute in H.
  specialize (H eq_refl eq_refl). discriminate H.
Qed.

(** C2 (amended): a rendered node of kind field, textEdit, numericEdit,
    choiceList, exclGroup or checkButton whose [cascade] attribute has the
    non-empty value [c] renders to exactly the lines below: each control it
    emits (the input or button of a field, the text or number input, the
    select, every radio input of the group, the checkbox) carries
    [data-cascade='c'], and the linkage flag is set. *)
Theorem cascade_marker_on_controls (el : element) (c : string) (flag : bool) :
  get el "cascade" = Some c -> c <> EmptyString ->
  snd (process_element el flag) = true /\
  let name d := get_default el "name" d in
  let value := get_default el "value" EmptyString in
  let rendered := fst (process_element el flag) in
  match kind_of el with
  | Field =>
      let n := name "UnnamedField" in
      if field_is_button el then
        rendered = join nl
          [ "<div class='field'>";
            "<button type='button' id='" +:+ n +:+ "' name='" +:+ n +:+ "'"
              +:+ marker c +:+ ">" +:+ get_default el "label" n +:+ "</button>";
            "</div>" ]
      else
        rendered = join nl
          [ "<div class='field'>";
            "<label for='" +:+ n +:+ "'>" +:+ get_default el "label" n +:+ "</label>";
            "<input type='" +:+ get_default el "type" "text" +:+ "' id='" +:+ n
              +:+ "' name='" +:+ n +:+ "' value='" +:+ value +:+ "'"
              +:+ marker c +:+ " />";
            "</div>" ]
  | TextEdit =>
      let n := name "TextEdit" in
      rendered = join nl
        [ "<div class='textedit'>";
          "<input type='text' id='" +:+ n +:+ "' name='" +:+ n +:+ "' value='"
            +:+ value +:+ "'" +:+ marker c +:+ " />";
          "</div>" ]
  | NumericEdit =>
      let n := name "NumericEdit" in
      rendered = join nl
        [ "<div class='numericedit'>";
          "<input type='number' id='" +:+ n +:+ "' name='" +:+ n +:+ "' value='"
            +:+ value +:+ "'" +:+ marker c +:+ " />";
          "</div>" ]
  | ChoiceList =>
      let n := name "ChoiceList" in
      rendered = join nl
        ([ "<div class='choicelist'>";
           "<label for='" +:+ n +:+ "'>" +:+ n +:+ "</label>";
           "<select id='" +:+ n +:+ "' name='" +:+ n +:+ "'" +:+ marker c +:+ ">" ]
         ++ map option_line (findall el (plain "item"))
         ++ [ "</select>"; "</div>" ])
  | ExclGroup =>
      let n := name "ExclGroup" in
      rendered = join nl
        ([ "<div class='exclgroup'>" ]
         ++ map (fun choice =>
                   "<label><input type='radio' name='" +:+ n +:+ "' value='"
                     +:+ option_value_of choice +:+ "'" +:+ marker c +:+ "/> "
                     +:+ option_text_of choice +:+ "</label>")
                (findall el (plain "exclchoice"))
         ++ [ "</div>" ])
  | CheckButton =>
      let n := name "CheckButton" in
      rendered = join nl
        [ "<div class='checkbutton'>";
          "<label><input type='checkbox' id='" +:+ n +:+ "' name='" +:+ n +:+ "'"
            +:+ marker c +:+ "/> " +:+ n +:+ "</label>";
          "</div>" ]
  | Subform | Button | Text | Draw | Other => True
  end.
Proof.
  intros Hget Hc. split.
  - apply process_element_flag. right. exists el. split; [constructor|].
    unfold bears_cascade. rewrite Hget. destruct c; [congruence|reflexivity].
  - cbv zeta.
    destruct (kind_of el) eqn:Hk; try exact I;
      rewrite process_leaf by (rewrite Hk; reflexivity);
      cbn [fst]; unfold html_parts_of; rewrite Hk, Hget,
        (cascade_attr_of_some c Hc).
    + unfold field_parts. destruct (field_is_button el); reflexivity.
    + reflexivity.
    + reflexivity.
    + reflexivity.
    + reflexivity.
    + reflexivity.
Qed.

Lemma cascade_marker_on_controls_witness :
  snd (process_element textedit_in_group false) = true /\
  fst (process_element textedit_in_group false) =
    join nl [ "<div class='textedit'>";
              "<input type='text' id='TextEdit' name='TextEdit' value='' data-cascade='grp1' />";
              "</div>" ].
Proof.
  apply (cascade_marker_on_controls textedit_in_group "grp1" false).
  - vm_compute. reflexivity.
  - discriminate.
Defined.

(** ** C3: the options of a choice list *)

(** The choiceList branch as it is written: a label, a select and one option
    per descendant element tagged exactly [item], outside any namespace and
    in lower case, at any depth and in document order;
    the option value is the item's [value] attribute, or its text when the
    attribute is missing, and the option label is the item's text, or the
    option value when the item has no text. *)
Theorem choicelist_one_option_per_item (el : element) (flag : bool) :
  kind_of el = ChoiceList ->
  let items := List.filter (has_tag (plain "item")) (iterdescendants el) in
  let value_of item :=
    match get item "value" with
    | Some v => v
    | None => or_else (text_of item) EmptyString
    end in
  let label_of item := or_else (text_of item) (value_of item) in
  let options :=
    map (fun item =>
           "<option value='" +:+ value_of item +:+ "'>" +:+ label_of item
             +:+ "</option>") items in
  let n := get_default el "name" "ChoiceList" in
  fst (process_element el flag) =
    join nl
      ([ "<div class='choicelist'>";
         "<label for='" +:+ n +:+ "'>" +:+ n +:+ "</label>";
         "<select id='" +:+ n +:+ "' name='" +:+ n +:+ "'"
           +:+ cascade_attr_of (get el "cascade") +:+ ">" ]
       ++ options ++ [ "</select>"; "</div>" ])
  /\ length options = length items
  /\ (forall item, item ∈ items <->
                   descendant el item /\ has_tag (plain "item") item = true).
Proof.
  intros Hk. cbv zeta. split; [|split].
  - rewrite process_leaf by (rewrite Hk; reflexivity).
    cbn [fst]. unfold html_parts_of. rewrite Hk. reflexivity.
  - apply length_map.
  - intros item. apply elem_of_findall.
Qed.

Lemma choicelist_one_option_per_item_witness :
  fst (process_element nested_choicelist false) =
    join nl
      [ "<div class='choicelist'>";
        "<label for='colour'>colour</label>";
        "<select id='colour' name='colour'>";
        "<option value='r'>Red</option>";
        "<option value='Green'>Green</option>";
        "<option value='b'>b</option>";
        "</select>";
        "</div>" ].
Proof.
  exact (proj1 (choicelist_one_option_per_item nested_choicelist false eq_refl)).
Defined.

(** The path [.//item] names elements outside any namespace, in lower case:
    an [item] element of the XFA namespace is not selected. *)
Lemma namespaced_item_not_selected :
  findall (Element (xfa "choiceList") ∅ None
             [ Element (xfa "item") ∅ (Some "One") [] ]) (plain "item") = [].
Proof. reflexivity. Qed.

(** C3: a choice list of a document in the XFA namespace is recognised, by
    its local name, and has two item nodes below it, yet its select is
    rendered without any option: the items are looked up by the path
    [.//item], which names elements outside any namespace only. *)
Theorem choicelist_misses_namespaced_items :
  kind_of xfa_choicelist = ChoiceList
  /\ length (List.filter (goes_by "item") (iterdescendants xfa_choicelist)) = 2
  /\ findall xfa_choicelist (plain "item") = []
  /\ fst (process_element xfa_choicelist false) =
       join nl [ "<div class='choicelist'>";
                 "<label for='colour'>colour</label>";
                 "<select id='colour' name='colour'>";
                 "</select>";
                 "</div>" ].
Proof. repeat split; vm_compute; reflexivity. Qed.

(** ** C6: the radio buttons of an exclusive group *)

(** The exclGroup branch as it is written: one radio input per descendant
    element tagged exactly [exclchoice], outside any namespace and in lower
    case, at any depth and in document order; every one of them
    has the same [name], the group's [name] attribute or [ExclGroup] when the
    attribute is missing; value and label follow the fallback rule of choice
    list items. *)
Theorem exclgroup_one_radio_per_choice (el : element) (flag : bool) :
  kind_of el = ExclGroup ->
  let choices := List.filter (has_tag (plain "exclchoice")) (iterdescendants el) in
  let value_of choice :=
    match get choice "value" with
    | Some v => v
    | None => or_else (text_of choice) EmptyString
    end in
  let label_of choice := or_else (text_of choice) (value_of choice) in
  let group_name :=
    match get el "name" with
    | Some n => n
    | None => "ExclGroup"
    end in
  let radios :=
    map (fun choice =>
           "<label><input type='radio' name='" +:+ group_name +:+ "' value='"
             +:+ value_of choice +:+ "'" +:+ cascade_attr_of (get el "cascade")
             +:+ "/> " +:+ label_of choice +:+ "</label>") choices in
  fst (process_element el flag) =
    join nl ([ "<div class='exclgroup'>" ] ++ radios ++ [ "</div>" ])
  /\ length radios = length choices
  /\ (forall choice, choice ∈ choices <->
        descendant el choice /\ has_tag (plain "exclchoice") choice = true).
Proof.
  intros Hk. cbv zeta. split; [|split].
  - rewrite process_leaf by (rewrite Hk; reflexivity).
    cbn [fst]. unfold html_parts_of. rewrite Hk. reflexivity.
  - apply length_map.
  - intros choice. apply elem_of_findall.
Qed.

Lemma exclgroup_one_radio_per_choice_witness :
  fst (process_element nested_exclgroup false) =
    join nl
      [ "<div class='exclgroup'>";
        "<label><input type='radio' name='size' value='s'/> Small</label>";
        "<label><input type='radio' name='size' value='Large'/> Large</label>";
        "</div>" ].
Proof.
  exact (proj1 (exclgroup_one_radio_per_choice nested_exclgroup false eq_refl)).
Defined.

(** C6: an exclusive group whose choices are spelt [exclChoice], as the
    comment in the branch spells them, is recognised and has two choice nodes
    below it, yet it is rendered without any radio input, in the XFA
    namespace and outside any namespace alike: the choices are looked up by
    the path [.//exclchoice], which is exact in case and namespace. *)
Theorem exclgroup_misses_exclChoice_children :
  (kind_of xfa_exclgroup = ExclGroup
   /\ length (List.filter (goes_by "exclchoice") (iterdescendants xfa_exclgroup)) = 2
   /\ fst (process_element xfa_exclgroup false) =
        join nl [ "<div class='exclgroup'>"; "</div>" ])
  /\ (kind_of plain_exclgroup = ExclGroup
      /\ length (List.filter (goes_by "exclchoice") (iterdescendants plain_exclgroup)) = 2
      /\ fst (process_element plain_exclgroup false) =
           join nl [ "<div class='exclgroup'>"; "</div>" ]).
Proof. repeat split; vm_compute; reflexivity. Qed.

(** ** C4: fields rendered as buttons *)

(** The hint [Button] does not contain [button] as it stands and the name
    [submit] passes none of the name tests, yet the field is a button. *)
Lemma field_claim_counterexample :
  contains (get_default field_with_capital_hint "uiType" EmptyString) "button"
    = false
  /\ name_marks_button field_with_capital_hint = false
  /\ fst (process_element field_with_capital_hint false) =
       join nl [ "<div class='field'>";
                 "<button type='button' id='submit' name='submit'>submit</button>";
                 "</div>" ]
  /\ ~ field_claim field_with_capital_hint.
Proof.
  repeat (split; [vm_compute; reflexivity|]).
  intros H. specialize (H eq_refl). vm_compute in H. discriminate H.
Qed.

(** C4 (amended): a field node renders to a button labelled with its label,
    and not to an editable input, exactly when its [uiType] hint, lower-cased,
    contains [button], or its name, lower-cased, starts with [btn] or [button]
    or ends with [btn], whatever its [type]; otherwise it renders to a label
    and an input of the given type with the value filled in. *)
Theorem field_button_or_input (el : element) (flag : bool) :
  kind_of el = Field ->
  let hint := lower (get_default el "uiType" EmptyString) in
  let n := lower (get_default el "name" "UnnamedField") in
  if contains hint "button" || startswith n "btn" || startswith n "button"
     || endswith n "btn"
  then fst (process_element el flag) = join nl (field_button_lines el)
       /\ fst (process_element el flag) <> join nl (field_input_lines el)
  else fst (process_element el flag) = join nl (field_input_lines el).
Proof.
  intros Hk. cbv zeta.
  rewrite process_leaf by (rewrite Hk; reflexivity).
  cbn [fst]. unfold html_parts_of. rewrite Hk. unfold field_parts.
  change (contains (lower (get_default el "uiType" EmptyString)) "button"
          || startswith (lower (get_default el "name" "UnnamedField")) "btn"
          || startswith (lower (get_default el "name" "UnnamedField")) "button"
          || endswith (lower (get_default el "name" "UnnamedField")) "btn")
    with (field_is_button el).
  destruct (field_is_button el); [split|]; try reflexivity.
  unfold field_button_lines, field_input_lines. cbn [join]. discriminate.
Qed.

Lemma field_button_or_input_witness :
  fst (process_element field_with_capital_hint false) =
    join nl [ "<div class='field'>";
              "<button type='button' id='submit' name='submit'>submit</button>";
              "</div>" ].
Proof.
  exact (proj1 (field_button_or_input field_with_capital_hint false eq_refl)).
Defined.

(** ** C5: script aggregation *)

Lemma omap_filter_script l :
  omap (fun script_el =>
          if truthy (text_of script_el) then text_of script_el else None)
       (List.filter (has_tag (xfa "script")) l)
  = omap script_text l.
Proof.
  induction l as [|n l IH]; [reflexivity|].
  change (omap script_text (n :: l)) with
    (match script_text n with
     | Some s => s :: omap script_text l
     | None => omap script_text l
     end).
  unfold script_text at 1. cbn [List.filter].
  destruct (has_tag (xfa "script") n); cbn [andb]; [|exact IH].
  rewrite <- IH. reflexivity.
Qed.

(** The root is a scripting node with text, and nothing is collected. *)
Lemma aggregation_claim_counterexample :
  omap script_text (nodes lone_script) = [ "a();" ]
  /\ extract_all_js lone_script = EmptyString
  /\ ~ aggregation_claim lone_script.
Proof.
  repeat (split; [vm_compute; reflexivity|]).
  unfold aggregation_claim. vm_compute. discriminate.
Qed.

(** C5 (amended): the blob is the texts of the scripting nodes strictly below
    the root, in document order, each taken exactly when it is non-empty,
    joined by one line break, without deduplication or reordering; two
    scripting children with texts [a();] and [b();] give [a();], a line break,
    [b();].  A scripting node that is itself the root is not collected. *)
Theorem extract_all_js_descendant_scripts (xfa_xml : element) :
  extract_all_js xfa_xml = join nl (omap script_text (iterdescendants xfa_xml))
  /\ (forall n s, script_text n = Some s <->
        has_tag (xfa "script") n = true /\ text_of n = Some s /\ s <> EmptyString)
  /\ (forall q a t a1 a2,
        extract_all_js
          (Element q a t [ Element (xfa "script") a1 (Some "a();") [];
                           Element (xfa "script") a2 (Some "b();") [] ])
        = "a();" +:+ nl +:+ "b();")
  /\ (forall q a t a1 a2,
        extract_all_js
          (Element q a t [ Element (xfa "script") a1 (Some "a();") [];
                           Element (xfa "script") a2 (Some "a();") [] ])
        = "a();" +:+ nl +:+ "a();").
Proof.
  split; [|split; [|split]].
  - unfold extract_all_js, findall. rewrite omap_filter_script. reflexivity.
  - intros n s. unfold script_text.
    destruct (has_tag (xfa "script") n); cbn [andb].
    + destruct (text_of n) as [[|c r]|]; cbn [truthy]; split.
      * discriminate.
      * intros (_ & [= <-] & H). congruence.
      * intros [= <-]. repeat split; discriminate.
      * intros (_ & H & _). exact H.
      * discriminate.
      * intros (_ & H & _). discriminate H.
    + split; [discriminate|]. intros (H & _). discriminate H.
  - reflexivity.
  - reflexivity.
Qed.

(** ** C7: the order of the script section *)


(** What each piece defines. *)
Lemma script_pieces_content :
  contains cascade_js_text "input[data-cascade], button[data-cascade]" = true
  /\ contains adapter "var schCar = {" = true
  /\ contains adapter "function translateAcrobatJS(acrobatJS) {" = true
  /\ contains host_form_shim "window.xfa.host = {" = true
  /\ contains host_form_shim "window.xfa.form = {" = true
  /\ contains font_stub "window.xfa.font = {" = true
  /\ contains guarded_executor "function executeXFAJavaScript(jsCode) {" = true
  /\ contains advanced_namespace "window.xfa.advanced = {" = true
  /\ contains default_bindings_js
       ("document.body.addEventListener(" +:+ dq +:+ "click" +:+ dq) = true.
Proof. vm_compute. repeat split. Qed.


(** ** C10: values reach the markup unescaped *)

Lemma append_assoc (a b c : string) : (a +:+ b) +:+ c = a +:+ b +:+ c.
Proof.
  induction a as [|x a IH]; [reflexivity|].
  change (String x ((a +:+ b) +:+ c) = String x (a +:+ b +:+ c)).
  rewrite IH. reflexivity.
Qed.

Lemma append_empty_r (a : string) : a +:+ EmptyString = a.
Proof.
  induction a as [|x a IH]; [reflexivity|].
  change (String x (a +:+ EmptyString) = String x a).
  rewrite IH. reflexivity.
Qed.

Lemma join_cons sep p rest :
  join sep (p :: rest) =
    match rest with [] => p | _ => p +:+ sep +:+ join sep rest end.
Proof. destruct rest; reflexivity. Qed.

Lemma process_children_fragments cs :
  forall flag,
    fst (process_children cs flag) =
      map (fun c => fst (process_element c false)) cs.
Proof.
  induction cs as [|c cs IH]; intros flag; [reflexivity|].
  rewrite process_children_cons. cbn [fst map].
  rewrite (process_element_fragment c flag false), IH. reflexivity.
Qed.

(** The fragment of a node, from the fragments of its children. *)
Lemma fragment_of_parts el flag :
  fst (process_element el flag) =
    join nl (html_parts_of el
               (map (fun c => fst (process_element c false)) (children_of el))).
Proof.
  destruct el as [q a t cs|t]; [|reflexivity].
  pose proof (process_element_unfold q a t cs flag) as E. cbv zeta in E.
  rewrite E. clear E. cbn [children_of].
  destruct (recurses (kind_of (Element q a t cs))) eqn:Hr; cbn [fst].
  - rewrite process_children_fragments. reflexivity.
  - f_equal. unfold html_parts_of.
    destruct (kind_of (Element q a t cs)); try discriminate Hr; reflexivity.
Qed.

(** *** What [strip] removes *)

Lemma string_rev_app_append s1 : forall s2,
  String.rev_app s1 s2 = String.rev s1 +:+ s2.
Proof.
  induction s1 as [|c s1 IH]; intros s2; [reflexivity|].
  change (String.rev_app s1 (String c s2)
          = String.rev_app s1 (String c EmptyString) +:+ s2).
  rewrite (IH (String c s2)), (IH (String c EmptyString)), append_assoc.
  reflexivity.
Qed.

Lemma string_rev_cons c s :
  String.rev (String c s) = String.rev s +:+ String c EmptyString.
Proof. apply (string_rev_app_append s (String c EmptyString)). Qed.

Lemma string_rev_append a b :
  String.rev (a +:+ b) = String.rev b +:+ String.rev a.
Proof.
  induction a as [|c a IH].
  - change (String.rev b = String.rev b +:+ EmptyString).
    rewrite append_empty_r. reflexivity.
  - change (String.rev (String c (a +:+ b))
            = String.rev b +:+ String.rev (String c a)).
    rewrite !string_rev_cons, IH, append_assoc. reflexivity.
Qed.

Lemma string_rev_involutive s : String.rev (String.rev s) = s.
Proof.
  induction s as [|c s IH]; [reflexivity|].
  rewrite string_rev_cons, string_rev_append, IH. reflexivity.
Qed.

Lemma blank_append a b : blank (a +:+ b) = blank a && blank b.
Proof.
  induction a as [|c a IH]; [reflexivity|].
  change (is_space c && blank (a +:+ b) = is_space c && blank a && blank b).
  rewrite IH, andb_assoc. reflexivity.
Qed.

Lemma blank_rev s : blank (String.rev s) = blank s.
Proof.
  induction s as [|c s IH]; [reflexivity|].
  rewrite string_rev_cons, blank_append, IH. cbn [blank].
  rewrite andb_true_r. apply andb_comm.
Qed.

(** [lstrip] cuts whitespace off, and all of it. *)
Lemma lstrip_split s : exists ws, s = ws +:+ lstrip s /\ blank ws = true.
Proof.
  induction s as [|c s (ws & E & Hws)]; [exists EmptyString; split; reflexivity|].
  cbn [lstrip]. destruct (is_space c) eqn:Hc.
  - exists (String c ws). split.
    + change (String c s = String c (ws +:+ lstrip s)). rewrite <- E. reflexivity.
    + cbn [blank]. rewrite Hc, Hws. reflexivity.
  - exists EmptyString. split; reflexivity.
Qed.

Lemma lstrip_head s c r : lstrip s = String c r -> is_space c = false.
Proof.
  induction s as [|x s IH]; [discriminate|].
  cbn [lstrip]. destruct (is_space x) eqn:Hx; [exact IH|].
  intros [= <- _]. exact Hx.
Qed.

Lemma strip_trimmed t : trimmed t (strip t).
Proof.
  unfold strip.
  destruct (lstrip_split t) as (w1 & E1 & H1).
  destruct (lstrip_split (String.rev (lstrip t))) as (w2 & E2 & H2).
  set (u := lstrip t) in *.
  set (v := lstrip (String.rev u)) in *.
  assert (Eu : u = String.rev v +:+ String.rev w2).
  { rewrite <- string_rev_append, <- E2. symmetry. apply string_rev_involutive. }
  exists w1, (String.rev w2). repeat split.
  - rewrite <- Eu. exact E1.
  - exact H1.
  - rewrite blank_rev. exact H2.
  - intros c r Hs. apply (lstrip_head t c (r +:+ String.rev w2)).
    fold u. rewrite Eu, Hs. reflexivity.
  - intros r c Hs. apply (lstrip_head (String.rev u) c (String.rev r)).
    fold v. rewrite <- (string_rev_involutive v), Hs, string_rev_append.
    reflexivity.
Qed.

(** *** The branches write what they read *)

Lemma marker_written el :
  cascade_attr_of (get el "cascade") = written_marker el.
Proof.
  unfold written_marker. destruct (get el "cascade") as [[|c r]|]; reflexivity.
Qed.

Lemma draw_span_shown el :
  draw_span el =
    match strip (raw_text el) with
    | EmptyString => []
    | String _ _ => [ "<span>" +:+ strip (raw_text el) +:+ "</span>" ]
    end.
Proof.
  unfold draw_span, raw_text. destruct (text_of el) as [[|c r]|];
    [reflexivity| |reflexivity].
  destruct (strip (String c r)); reflexivity.
Qed.

(** The padded text of a draw is not in its fragment as it stands: the
    whitespace around it is gone. *)
Lemma text_verbatim_counterexample :
  ~ text_verbatim_claim padded_draw
  /\ fst (process_element padded_draw false) =
       join nl [ "<div class='draw' style='border:1px solid #aaa; padding:5px;'>";
                 "<span>Tom & Jerry's <b></span>";
                 "</div>" ].
Proof.
  split; [|vm_compute; reflexivity].
  intros H. specialize (H eq_refl _ eq_refl). vm_compute in H. discriminate H.
Qed.

(** C10: no escaping is applied when rendering.  The fragment of every node
    is the fixed markup of its branch with each attribute value and each
    direct text the branch writes put in as it stands, character for
    character, in every place where it is written; so a quote, an ampersand
    or an angle bracket of the input is in the fragment as it is.  The one
    value that is changed is the text of a draw, which is written without
    its leading and trailing whitespace, and not at all when nothing else
    is left. *)
Theorem values_written_as_they_stand (el : element) (flag : bool) :
  exists shown,
    trimmed (raw_text el) shown
    /\ fst (process_element el flag) = join nl (verbatim_lines el shown).
Proof.
  exists (strip (raw_text el)). split; [apply strip_trimmed|].
  rewrite fragment_of_parts. f_equal.
  unfold html_parts_of, verbatim_lines. cbv zeta.
  rewrite marker_written, draw_span_shown.
  destruct (kind_of el); reflexivity.
Qed.

(** A field whose value holds a quote, an ampersand and angle brackets. *)
Lemma markup_value_rendered :
  fst (process_element field_with_markup_value false) =
    join nl [ "<div class='field'>";
              "<label for='who'>who</label>";
              "<input type='text' id='who' name='who' value='O'Neil & <b>' />";
              "</div>" ].
Proof. vm_compute. reflexivity. Qed.

(** A static text, a button and a padded draw whose texts hold markup
    characters. *)
Lemma markup_text_rendered :
  fst (process_element text_with_markup false) =
    "<div class='static-text'> a < b && 'c' > d </div>"
  /\ fst (process_element button_with_markup false) =
       join nl [ "<div class='button'>";
                 "<button type='button' id='go<1>' name='go<1>'>Save & <i>close</i></button>";
                 "</div>" ].
Proof. split; vm_compute; reflexivity. Qed.


(** ** The store-level interpreter only reads the document *)

Create HintDb frame.

Lemma preserves_ret {A} (a : A) : preserves_store (Heap.ret a).
Proof. intros w a' w' [= _ <-]. reflexivity. Qed.

Lemma preserves_fail {A} : preserves_store (@Heap.fail A).
Proof. intros w a w' H. discriminate H. Qed.

Lemma preserves_bind {A B} (m : Heap.M A) (k : A -> Heap.M B) :
  preserves_store m -> (forall a, preserves_store (k a)) ->
  preserves_store (Heap.bind m k).
Proof.
  intros Hm Hk w b w' H. unfold Heap.bind in H.
  destruct (m w) as [[a w1]|] eqn:E; [|discriminate].
  rewrite (Hk a w1 b w' H). exact (Hm w a w1 E).
Qed.

Lemma preserves_node_of el : preserves_store (Heap.node_of el).
Proof.
  intros w n w' H. unfold Heap.node_of in H.
  destruct (Heap.store w !! el); [|discriminate].
  injection H as _ <-. reflexivity.
Qed.

Lemma preserves_assign b : preserves_store (Heap.assign_cascade_required b).
Proof. intros w a w' [= _ <-]. reflexivity. Qed.

Lemma preserves_read_flag : preserves_store Heap.read_cascade_required.
Proof. intros w a w' [= _ <-]. reflexivity. Qed.

#[local] Hint Resolve preserves_node_of preserves_assign preserves_read_flag : frame.

(** Walk down a computation built from [bind], [ret] and case analysis. *)
Ltac frame :=
  repeat first
    [ solve [auto with frame nocore]
    | apply preserves_ret
    | apply preserves_fail
    | apply preserves_bind; [|intros ?]
    | match goal with
      | |- preserves_store (match ?x with _ => _ end) => destruct x
      end ].

Lemma preserves_get el key : preserves_store (Heap.get el key).
Proof. unfold Heap.get. frame. Qed.

#[local] Hint Resolve preserves_get : frame.

Lemma preserves_get_default el key d : preserves_store (Heap.get_default el key d).
Proof. unfold Heap.get_default. frame. Qed.

Lemma preserves_text_of el : preserves_store (Heap.text_of el).
Proof. unfold Heap.text_of. frame. Qed.

Lemma preserves_children_of el : preserves_store (Heap.children_of el).
Proof. unfold Heap.children_of. frame. Qed.

Lemma preserves_qname_localname el : preserves_store (Heap.qname_localname el).
Proof. unfold Heap.qname_localname. frame. Qed.

Lemma preserves_has_tag q el : preserves_store (Heap.has_tag q el).
Proof. unfold Heap.has_tag. frame. Qed.

#[local] Hint Resolve preserves_get_default preserves_text_of
  preserves_children_of preserves_qname_localname preserves_has_tag : frame.

Lemma preserves_mapM {A B} (f : A -> Heap.M B) l :
  (forall x, preserves_store (f x)) -> preserves_store (Heap.mapM f l).
Proof. intros Hf. induction l as [|x l IH]; cbn [Heap.mapM]; frame. Qed.

Lemma preserves_filterM {A} (p : A -> Heap.M bool) l :
  (forall x, preserves_store (p x)) -> preserves_store (Heap.filterM p l).
Proof. intros Hp. induction l as [|x l IH]; cbn [Heap.filterM]; frame. Qed.

Lemma preserves_iterdescendants fuel :
  forall el, preserves_store (Heap.iterdescendants fuel el).
Proof.
  induction fuel as [|fuel IH]; intros el; cbn [Heap.iterdescendants]; frame.
  apply preserves_mapM. intros c. frame.
Qed.

#[local] Hint Resolve preserves_iterdescendants : frame.

Lemma preserves_findall fuel el q : preserves_store (Heap.findall fuel el q).
Proof.
  unfold Heap.findall. frame. apply preserves_filterM. intros x. frame.
Qed.

#[local] Hint Resolve preserves_findall : frame.

Lemma preserves_find fuel el q : preserves_store (Heap.find fuel el q).
Proof. unfold Heap.find. frame. Qed.

Lemma preserves_option_of item : preserves_store (Heap.option_of item).
Proof. unfold Heap.option_of. frame. Qed.

Lemma preserves_radio_of g c choice : preserves_store (Heap.radio_of g c choice).
Proof. unfold Heap.radio_of. frame. Qed.

#[local] Hint Resolve preserves_find preserves_option_of preserves_radio_of : frame.

Lemma preserves_process_element fuel :
  forall el, preserves_store (Heap.process_element fuel el).
Proof.
  induction fuel as [|fuel IH]; intros el; cbn [Heap.process_element]; frame;
    apply preserves_mapM; intros x; frame.
Qed.

Lemma preserves_extract_all_js fuel el :
  preserves_store (Heap.extract_all_js fuel el).
Proof. unfold Heap.extract_all_js. frame. apply preserves_mapM. intros x. frame. Qed.

#[local] Hint Resolve preserves_process_element preserves_extract_all_js : frame.

Lemma preserves_build fuel el :
  preserves_store (Heap.build_ui_interpreter_stacked fuel el).
Proof. unfold Heap.build_ui_interpreter_stacked. frame. Qed.

(** The property is not a consequence of the types: the writing calls do not
    have it. *)
Lemma set_changes_store :
  ~ preserves_store (Heap.set 1%positive "name" "x").
Proof.
  intros H.
  specialize (H (Heap.World {[ 1%positive := Heap.ElementNode (plain "a") ∅ None [] ]} false)
                tt _ eq_refl).
  cbn [Heap.store] in H.
  apply (f_equal (fun m => m !! 1%positive)) in H.
  vm_compute in H. discriminate H.
Qed.

Lemma set_text_changes_store :
  ~ preserves_store (Heap.set_text 1%positive (Some "x")).
Proof.
  intros H.
  specialize (H (Heap.World {[ 1%positive := Heap.SpecialNode None ]} false)
                tt _ eq_refl).
  cbn [Heap.store] in H.
  apply (f_equal (fun m => m !! 1%positive)) in H.
  vm_compute in H. discriminate H.
Qed.

(** ** The store-level interpreter computes what the value-level one does *)

Lemma represents_element h l q a tx cs :
  represents h l (Element q a tx cs) <->
  exists ls, h !! l = Some (Heap.ElementNode q a tx ls)
             /\ Forall2 (represents h) ls cs.
Proof.
  cbn [represents]. split; intros (ls & Hl & H); exists ls; (split; [exact Hl|]);
    clear Hl.
  - revert ls H. induction cs as [|c cs IH]; intros [|l' ls] H;
      try contradiction; constructor; [apply H|apply IH, H].
  - induction H as [|l' c ls cs Hc _ IH]; [exact I|split; assumption].
Qed.

Lemma bind_eq {A B} (m : Heap.M A) (k : A -> Heap.M B) w a w' :
  m w = Some (a, w') -> Heap.bind m k w = k a w'.
Proof. intros H. unfold Heap.bind. rewrite H. reflexivity. Qed.

Section Reads.
Variable h : gmap positive Heap.node.
Variable b : bool.
Let w := Heap.World h b.

Lemma node_of_element l q a tx ls :
  h !! l = Some (Heap.ElementNode q a tx ls) ->
  Heap.node_of l w = Some (Heap.ElementNode q a tx ls, w).
Proof. intros H. unfold Heap.node_of. cbn [Heap.store w]. rewrite H. reflexivity. Qed.

Lemma node_of_special l tx :
  h !! l = Some (Heap.SpecialNode tx) ->
  Heap.node_of l w = Some (Heap.SpecialNode tx, w).
Proof. intros H. unfold Heap.node_of. cbn [Heap.store w]. rewrite H. reflexivity. Qed.

(** Reading through a handle gives what the represented tree holds. *)
Ltac read_node t H :=
  destruct t as [q a tx cs|tx];
  [ apply represents_element in H as (ls & Hl & Hcs);
    erewrite bind_eq by (apply node_of_element, Hl)
  | cbn [represents] in H;
    erewrite bind_eq by (apply node_of_special, H) ].

Lemma get_represents l t key :
  represents h l t -> Heap.get l key w = Some (Tree.get t key, w).
Proof. intros H. unfold Heap.get. read_node t H; reflexivity. Qed.

Lemma get_default_represents l t key d :
  represents h l t ->
  Heap.get_default l key d w = Some (Tree.get_default t key d, w).
Proof.
  intros H. unfold Heap.get_default.
  rewrite (bind_eq _ _ _ _ _ (get_represents l t key H)). reflexivity.
Qed.

Lemma text_of_represents l t :
  represents h l t -> Heap.text_of l w = Some (Tree.text_of t, w).
Proof. intros H. unfold Heap.text_of. read_node t H; reflexivity. Qed.

Lemma qname_localname_represents l t :
  represents h l t ->
  Heap.qname_localname l w = Some (Tree.qname_localname t, w).
Proof. intros H. unfold Heap.qname_localname. read_node t H; reflexivity. Qed.

Lemma has_tag_represents tag l t :
  represents h l t -> Heap.has_tag tag l w = Some (Tree.has_tag tag t, w).
Proof. intros H. unfold Heap.has_tag. read_node t H; reflexivity. Qed.

Lemma children_of_represents l t :
  represents h l t ->
  exists ls, Heap.children_of l w = Some (ls, w)
             /\ Forall2 (represents h) ls (Tree.children_of t).
Proof.
  intros H. unfold Heap.children_of. read_node t H.
  - exists ls. split; [reflexivity|exact Hcs].
  - exists []. split; [reflexivity|constructor].
Qed.

(** [mapM] over handles whose calls only read. *)
Lemma mapM_represents {B} (f : positive -> Heap.M B) (g : element -> B) ls ts :
  Forall2 (fun l t => f l w = Some (g t, w)) ls ts ->
  Heap.mapM f ls w = Some (map g ts, w).
Proof.
  induction 1 as [|l t ls ts Hf _ IH]; [reflexivity|].
  cbn [Heap.mapM map]. rewrite (bind_eq _ _ _ _ _ Hf), (bind_eq _ _ _ _ _ IH).
  reflexivity.
Qed.

Lemma filterM_represents q ls ts :
  Forall2 (represents h) ls ts ->
  exists ls', Heap.filterM (Heap.has_tag q) ls w = Some (ls', w)
              /\ Forall2 (represents h) ls' (List.filter (Tree.has_tag q) ts).
Proof.
  induction 1 as [|l t ls ts Hl _ (ls' & E & IH)].
  - exists []. split; [reflexivity|constructor].
  - cbn [Heap.filterM List.filter].
    rewrite (bind_eq _ _ _ _ _ (has_tag_represents q l t Hl)),
      (bind_eq _ _ _ _ _ E).
    destruct (Tree.has_tag q t).
    + exists (l :: ls'). split; [reflexivity|constructor; assumption].
    + exists ls'. split; [reflexivity|exact IH].
Qed.

End Reads.

Lemma height_child q a tx cs c :
  c ∈ cs -> height c < height (Element q a tx cs).
Proof.
  cbn [height]. induction 1 as [c cs|c c' cs _ IH]; cbn [map foldr]; lia.
Qed.

Lemma height_descendant t n : descendant t n -> height n < height t.
Proof.
  induction 1 as [q a tx cs c Hc|q a tx cs c n Hc _ IH].
  - apply height_child, Hc.
  - pose proof (height_child q a tx cs c Hc). lia.
Qed.

Lemma Forall2_concat {A B} (R : A -> B -> Prop) xss yss :
  Forall2 (Forall2 R) xss yss -> Forall2 R (concat xss) (concat yss).
Proof.
  induction 1 as [|xs ys xss yss H _ IH]; [constructor|].
  cbn [concat]. apply Forall2_app; assumption.
Qed.

Section Traversals.
Variable h : gmap positive Heap.node.
Variable b : bool.
Let w := Heap.World h b.

Lemma iterdescendants_represents t :
  forall fuel l,
    represents h l t -> height t < fuel ->
    exists ls, Heap.iterdescendants fuel l w = Some (ls, w)
               /\ Forall2 (represents h) ls (Tree.iterdescendants t).
Proof.
  induction t as [tx|q a tx cs IH] using element_ind; intros fuel l H Hh;
    (destruct fuel as [|fuel]; [lia|]); cbn [Heap.iterdescendants];
    destruct (children_of_represents h b l _ H) as (ls & E & Hls);
    rewrite (bind_eq _ _ _ _ _ E).
  - inversion Hls; subst. exists []. split; [reflexivity|constructor].
  - cbn [Tree.children_of] in Hls. rewrite iterdescendants_element.
    assert (Hcs : forall c, c ∈ cs -> height c < fuel).
    { intros c Hc. pose proof (height_child q a tx cs c Hc). lia. }
    clear E H Hh.
    assert (exists bs,
               Heap.mapM (fun c => Heap.bind (Heap.iterdescendants fuel c)
                                     (fun ds => Heap.ret (c :: ds))) ls w
               = Some (bs, w)
               /\ Forall2 (Forall2 (represents h)) bs
                    (map (fun c => c :: Tree.iterdescendants c) cs))
      as (bs & E & Hbs).
    { induction Hls as [|l' c ls cs Hl' _ IHls].
      - exists []. split; [reflexivity|constructor].
      - apply Forall_cons in IH as [IHc IHcs].
        destruct (IHc fuel l' Hl') as (ds & Ed & Hds);
          [apply Hcs; left|].
        destruct IHls as (bs & Eb & Hbs);
          [exact IHcs|intros c' Hc'; apply Hcs; right; exact Hc'|].
        exists ((l' :: ds) :: bs). split.
        + cbn [Heap.mapM].
          rewrite (bind_eq _ _ _ _ _
                     (bind_eq _ (fun ds => Heap.ret (l' :: ds)) _ _ _ Ed)).
          rewrite (bind_eq _ _ _ _ _ Eb). reflexivity.
        + cbn [map]. constructor; [constructor; assumption|exact Hbs]. }
    rewrite (bind_eq _ _ _ _ _ E). exists (concat bs).
    split; [reflexivity|apply Forall2_concat, Hbs].
Qed.

Lemma findall_represents t fuel l q :
  represents h l t -> height t < fuel ->
  exists ls, Heap.findall fuel l q w = Some (ls, w)
             /\ Forall2 (represents h) ls (Tree.findall t q).
Proof.
  intros H Hh. unfold Heap.findall, Tree.findall.
  destruct (iterdescendants_represents t fuel l H Hh) as (ds & E & Hds).
  rewrite (bind_eq _ _ _ _ _ E). apply filterM_represents, Hds.
Qed.

Lemma option_of_represents l t :
  represents h l t -> Heap.option_of l w = Some (option_line t, w).
Proof.
  intros H. unfold Heap.option_of.
  rewrite (bind_eq _ _ _ _ _ (text_of_represents h b l t H)).
  rewrite (bind_eq _ _ _ _ _ (get_default_represents h b l t _ _ H)).
  reflexivity.
Qed.

Lemma radio_of_represents g c l t :
  represents h l t -> Heap.radio_of g c l w = Some (radio_line g c t, w).
Proof.
  intros H. unfold Heap.radio_of.
  rewrite (bind_eq _ _ _ _ _ (text_of_represents h b l t H)).
  rewrite (bind_eq _ _ _ _ _ (get_default_represents h b l t _ _ H)).
  reflexivity.
Qed.

Lemma extract_all_js_refines t fuel l :
  represents h l t -> height t < fuel ->
  Heap.extract_all_js fuel l w = Some (Tree.extract_all_js t, w).
Proof.
  intros H Hh. unfold Heap.extract_all_js, Tree.extract_all_js.
  destruct (findall_represents t fuel l (xfa "script") H Hh) as (ls & E & Hls).
  rewrite (bind_eq _ _ _ _ _ E).
  erewrite bind_eq; cycle 1.
  { apply (mapM_represents h b Heap.text_of Tree.text_of).
    eapply Forall2_impl; [exact Hls|]. intros l' t' Hl'.
    apply text_of_represents, Hl'. }
  unfold Heap.ret. do 3 f_equal. clear Hls E.
  induction (Tree.findall t (xfa "script")) as [|s ss IHs]; [reflexivity|].
  cbn [map omap list_omap]. destruct (truthy (Tree.text_of s)).
  - destruct (Tree.text_of s); cbn; f_equal; exact IHs.
  - exact IHs.
Qed.

End Traversals.

Lemma process_children_refines h fuel cs :
  Forall (fun c => forall l b,
            represents h l c ->
            Heap.process_element fuel l (Heap.World h b) =
              Some (fst (Tree.process_element c b),
                    Heap.World h (snd (Tree.process_element c b)))) cs ->
  forall ls b,
    Forall2 (represents h) ls cs ->
    Heap.mapM (Heap.process_element fuel) ls (Heap.World h b) =
      Some (fst (process_children cs b),
            Heap.World h (snd (process_children cs b))).
Proof.
  induction 1 as [|c cs Hc _ IH]; intros ls b Hls; inversion Hls; subst.
  - reflexivity.
  - cbn [Heap.mapM]. rewrite process_children_cons. cbn [fst snd].
    rewrite (bind_eq _ _ _ _ _ (Hc _ b ltac:(eassumption))).
    rewrite (bind_eq _ _ _ _ _ (IH _ _ ltac:(eassumption))).
    reflexivity.
Qed.

Lemma bind_cascade_attr {B} cascade (k : string -> Heap.M B) h b :
  Heap.bind
    match cascade with
    | Some (String c s) =>
        Heap.bind (Heap.assign_cascade_required true)
          (fun _ => Heap.ret (" data-cascade='" +:+ String c s +:+ "'"))
    | _ => Heap.ret EmptyString
    end k (Heap.World h b)
  = k (cascade_attr_of cascade)
      (Heap.World h (if truthy cascade then true else b)).
Proof. destruct cascade as [[|c s]|]; reflexivity. Qed.

Lemma bind_assoc {A B C} (m : Heap.M A) (f : A -> Heap.M B) (g : B -> Heap.M C) w :
  Heap.bind (Heap.bind m f) g w = Heap.bind m (fun x => Heap.bind (f x) g) w.
Proof. unfold Heap.bind. destruct (m w) as [[x w']|]; reflexivity. Qed.

(** On a store that represents the tree [t], with fuel beyond the height of
    [t], the store-level renderer returns the value-level fragment, leaves
    the store alone and sets the flag as the value-level renderer does. *)
Lemma process_element_refines h t :
  forall fuel l b,
    represents h l t -> height t < fuel ->
    Heap.process_element fuel l (Heap.World h b) =
      Some (fst (Tree.process_element t b),
            Heap.World h (snd (Tree.process_element t b))).
Proof.
  induction t as [tx|q a tx cs IH] using element_ind; intros fuel l b Hrep Hh;
    (destruct fuel as [|fuel]; [lia|]); cbn [Heap.process_element];
    rewrite (bind_eq _ _ _ _ _ (qname_localname_represents h b _ _ Hrep));
    cbn [Tree.qname_localname]; [reflexivity|].
  pose proof (process_element_unfold q a tx cs b) as E. cbv zeta in E.
  rewrite E. clear E.
  assert (Hcs : Forall (fun c => forall l b,
                          represents h l c ->
                          Heap.process_element fuel l (Heap.World h b) =
                            Some (fst (Tree.process_element c b),
                                  Heap.World h (snd (Tree.process_element c b))))
                  cs).
  { rewrite Forall_forall in IH |- *. intros c Hc l' b' Hl'.
    apply IH; [exact Hc|exact Hl'|].
    pose proof (height_child q a tx cs c Hc). lia. }
  clear IH.
  set (el := Element q a tx cs) in *.
  rewrite (bind_eq _ _ _ _ _ (get_represents h b _ _ _ Hrep)).
  rewrite bind_cascade_attr.
  set (b1 := if truthy (Tree.get el "cascade") then true else b).
  set (attr := cascade_attr_of (Tree.get el "cascade")).
  destruct (findall_represents h b1 el (S fuel) l (plain "item") Hrep Hh)
    as (items & Eitems & Hitems).
  destruct (findall_represents h b1 el (S fuel) l (plain "exclchoice") Hrep Hh)
    as (choices & Echoices & Hchoices).
  destruct (children_of_represents h b1 l el Hrep) as (ls & Els & Hls).
  cbn [Tree.children_of el] in Hls.
  pose proof (process_children_refines h fuel cs Hcs ls b1 Hls) as Echildren.
  assert (Eoptions :
            Heap.mapM Heap.option_of items (Heap.World h b1) =
              Some (map option_line (findall el (plain "item")), Heap.World h b1)).
  { apply (mapM_represents h b1 Heap.option_of option_line).
    eapply Forall2_impl; [exact Hitems|]. intros l' t' Hl'.
    apply option_of_represents, Hl'. }
  assert (Eradios :
            Heap.mapM (Heap.radio_of (get_default el "name" "ExclGroup") attr)
              choices (Heap.World h b1) =
              Some (map (radio_line (get_default el "name" "ExclGroup") attr)
                      (findall el (plain "exclchoice")), Heap.World h b1)).
  { apply (mapM_represents h b1 (Heap.radio_of _ _) (radio_line _ _)).
    eapply Forall2_impl; [exact Hchoices|]. intros l' t' Hl'.
    apply radio_of_represents, Hl'. }
  unfold html_parts_of. fold attr.
  assert (Hk : classify (lower (localname q)) = kind_of el) by reflexivity.
  rewrite Hk. clear Hk.
  destruct (kind_of el); cbn [recurses fst snd];
    repeat first
      [ rewrite bind_assoc
      | rewrite (bind_eq _ _ _ _ _ (get_default_represents h b1 _ _ _ _ Hrep))
      | rewrite (bind_eq _ _ _ _ _ (text_of_represents h b1 _ _ Hrep))
      | rewrite (bind_eq _ _ _ _ _ Els)
      | rewrite (bind_eq _ _ _ _ _ Echildren)
      | rewrite (bind_eq _ _ _ _ _ Eitems)
      | rewrite (bind_eq _ _ _ _ _ Echoices)
      | rewrite (bind_eq _ _ _ _ _ Eoptions)
      | rewrite (bind_eq _ _ _ _ _ Eradios) ];
    try reflexivity.
  unfold field_parts, field_is_button. cbv zeta.
  match goal with
  | |- context [if ?c then Heap.ret _ else _] => destruct c
  end; reflexivity.
Qed.

Lemma template_of_cases t :
  template_of t = t \/ descendant t (template_of t).
Proof.
  unfold template_of, Tree.find.
  destruct (findall t (xfa "template")) as [|x l] eqn:E; [left; reflexivity|].
  right. cbn [head]. apply (elem_of_findall t (xfa "template") x).
  rewrite E. left.
Qed.

Lemma height_template_of t : height (template_of t) <= height t.
Proof.
  destruct (template_of_cases t) as [->|H]; [lia|].
  apply height_descendant in H. lia.
Qed.

(** A run of the store-level interpreter on a store that represents [t]
    returns the document of the value-level interpreter and leaves the store
    as it was, whatever the flag held before. *)
Lemma build_refines h t fuel l b :
  represents h l t -> height t < fuel ->
  Heap.build_ui_interpreter_stacked fuel l (Heap.World h b) =
    Some (Tree.build_ui_interpreter_stacked t,
          Heap.World h (snd (render_pass t))).
Proof.
  intros Hrep Hh. unfold Heap.build_ui_interpreter_stacked.
  rewrite (bind_eq _ _ _ _ _ (eq_refl : Heap.assign_cascade_required false _ = _)).
  cbn [Heap.store].
  destruct (findall_represents h false t fuel l (xfa "template") Hrep Hh)
    as (ls & E & Hls).
  unfold Heap.find. rewrite bind_assoc, (bind_eq _ _ _ _ _ E).
  rewrite (bind_eq _ _ _ _ _ (eq_refl : Heap.ret (head ls) _ = _)).
  assert (Ht : represents h (match head ls with Some tl => tl | None => l end)
                 (template_of t)).
  { unfold template_of, Tree.find. destruct Hls; [exact Hrep|assumption]. }
  pose proof (height_template_of t) as Hht.
  rewrite (bind_eq _ _ _ _ _
             (process_element_refines h (template_of t) fuel _ false Ht
                ltac:(lia))).
  rewrite (bind_eq _ _ _ _ _ (eq_refl : Heap.read_cascade_required _ = _)).
  cbn [Heap.cascade_required].
  rewrite (bind_eq _ _ _ _ _ (extract_all_js_refines h _ t fuel l Hrep Hh)).
  reflexivity.
Qed.

(** ** C9: the input tree is not mutated *)

(** C9: a full interpretation run on a store holding the element tree returns
    a document and leaves every node of the store, its tag, attributes, text
    and children, as it was; so the store still holds the same tree. *)
Theorem interpreter_leaves_tree_unchanged
    (h : gmap positive Heap.node) (root : positive) (t : element)
    (fuel : nat) (b : bool) :
  represents h root t -> height t < fuel ->
  exists doc w',
    Heap.build_ui_interpreter_stacked fuel root (Heap.World h b) = Some (doc, w')
    /\ Heap.store w' = h
    /\ (forall l, Heap.store w' !! l = h !! l)
    /\ represents (Heap.store w') root t.
Proof.
  intros Hrep Hh. eexists _, _. split; [apply build_refines; eassumption|].
  cbn [Heap.store]. auto.
Qed.

Lemma page_store_represents : represents page_store 1%positive page_tree.
Proof.
  apply represents_element. exists [2%positive]. split; [reflexivity|].
  constructor; [|constructor].
  apply represents_element. exists []. split; [reflexivity|constructor].
Qed.

Lemma interpreter_leaves_tree_unchanged_witness :
  exists doc w',
    Heap.build_ui_interpreter_stacked 3 1%positive (Heap.World page_store false)
      = Some (doc, w')
    /\ Heap.store w' = page_store
    /\ (forall l, Heap.store w' !! l = page_store !! l)
    /\ represents (Heap.store w') 1%positive page_tree.
Proof.
  apply (interpreter_leaves_tree_unchanged page_store 1%positive page_tree 3 false).
  - exact page_store_represents.
  - vm_compute. lia.
Defined.

(** ** C8: two runs give the same document *)

(** C8: running the full interpretation twice on the same input tree, the
    second run starting from whatever the first one left behind, returns the
    same document both times: the document is a function of the tree alone,
    independent of the flag left by an earlier run and of the fuel bound. *)
Theorem interpretation_is_deterministic
    (h : gmap positive Heap.node) (root : positive) (t : element)
    (fuel fuel' : nat) (b : bool) :
  represents h root t -> height t < fuel -> height t < fuel' ->
  exists doc w1 w2,
    Heap.build_ui_interpreter_stacked fuel root (Heap.World h b) = Some (doc, w1)
    /\ Heap.build_ui_interpreter_stacked fuel' root w1 = Some (doc, w2)
    /\ doc = Tree.build_ui_interpreter_stacked t.
Proof.
  intros Hrep Hh Hh'. eexists _, _, _. split; [|split].
  - apply build_refines; eassumption.
  - apply build_refines; eassumption.
  - reflexivity.
Qed.

Lemma interpretation_is_deterministic_witness :
  exists doc w1 w2,
    Heap.build_ui_interpreter_stacked 3 1%positive (Heap.World page_store false)
      = Some (doc, w1)
    /\ Heap.build_ui_interpreter_stacked 5 1%positive w1 = Some (doc, w2)
    /\ doc = Tree.build_ui_interpreter_stacked page_tree.
Proof.
  apply (interpretation_is_deterministic page_store 1%positive page_tree 3 5 false).
  - exact page_store_represents.
  - vm_compute. lia.
  - vm_compute. lia.
Defined.

(** ** The end-to-end scenarios *)

Example scenario_labelled_text_field :
  process_element page_with_text_field false =
    (join nl [ "<div class='subform'>";
               "<h2>Page1</h2>";
               join nl [ "<div class='field'>";
                         "<label for='txtName'>txtName</label>";
                         "<input type='text' id='txtName' name='txtName' value='' />";
                         "</div>" ];
               "</div>" ], false).
Proof. vm_compute. reflexivity. Qed.

Example scenario_button_by_name :
  process_element submit_field false =
    (join nl [ "<div class='field'>";
               "<button type='button' id='btnSubmit' name='btnSubmit'>btnSubmit</button>";
               "</div>" ], false).
Proof. vm_compute. reflexivity. Qed.

Example scenario_no_linkage_no_script :
  cascade_js page_with_text_field = EmptyString
  /\ cascade_js page_tree = cascade_js_text.
Proof. split; vm_compute; reflexivity. Qed.

(** * Further properties of the renderer *)

Lemma bool_eq_of_iff (x y : bool) : (x = true <-> y = true) -> x = y.
Proof.
  destruct x, y; intros [H1 H2]; try reflexivity.
  - symmetry. apply H1. reflexivity.
  - apply H2. reflexivity.
Qed.

(** X1: rendering a node never clears the linkage flag and never reads it:
    started with the flag at [flag], it yields the fragment it yields from a
    clear flag, and the flag it yields from a clear flag or-ed with [flag]. *)
Theorem process_element_accumulates_flag (el : element) (flag : bool) :
  process_element el flag =
    (fst (process_element el false),
     flag || snd (process_element el false)).
Proof.
  rewrite (surjective_pairing (process_element el flag)). f_equal.
  - apply process_element_fragment.
  - apply bool_eq_of_iff. rewrite orb_true_iff, !process_element_flag.
    intuition discriminate.
Qed.

(** X2: a subform wraps the fragments of all its children, in document
    order, after its heading; an unrecognised element contributes nothing of
    its own and renders to the fragments of its children joined by line
    breaks.  A child that renders to nothing still takes a line. *)
Theorem containers_render_children_in_order
    (q : QName) (a : gmap string string) (t : option string)
    (cs : list element) (flag : bool) :
  let el := Element q a t cs in
  let fragments := map (fun c => fst (process_element c false)) cs in
  (kind_of el = Subform ->
     fst (process_element el flag) =
       join nl ([ "<div class='subform'>";
                  "<h2>" +:+ get_default el "name" "Subform" +:+ "</h2>" ]
                ++ fragments ++ [ "</div>" ]))
  /\ (kind_of el = Other ->
        fst (process_element el flag) = join nl fragments).
Proof.
  cbv zeta. pose proof (process_element_unfold q a t cs flag) as E.
  cbv zeta in E. rewrite E. clear E. unfold html_parts_of.
  split; intros Hk; rewrite Hk; cbn [recurses fst];
    rewrite process_children_fragments; reflexivity.
Qed.

Lemma containers_render_children_in_order_witness :
  fst (process_element wrapped_text false) =
    join nl [ EmptyString; "<div class='static-text'>Hello</div>" ].
Proof.
  exact (proj2 (containers_render_children_in_order
                  (xfa "pageArea") ∅ None
                  [ Special (Some "note");
                    Element (xfa "text") ∅ (Some "Hello") [] ] false) eq_refl).
Defined.

(** X3: a draw opens with a span holding its own text, stripped, only when
    that text is present and not blank; text that is missing, empty or all
    whitespace gives no span.  The fragments of the children follow in
    document order. *)
Theorem draw_shows_nonblank_text
    (q : QName) (a : gmap string string) (t : option string)
    (cs : list element) (flag : bool) :
  let el := Element q a t cs in
  kind_of el = Draw ->
  let shown :=
    match t with
    | Some txt => strip txt
    | None => EmptyString
    end in
  fst (process_element el flag) =
    join nl ([ "<div class='draw' style='border:1px solid #aaa; padding:5px;'>" ]
             ++ (if String.eqb shown EmptyString then []
                 else [ "<span>" +:+ shown +:+ "</span>" ])
             ++ map (fun c => fst (process_element c false)) cs
             ++ [ "</div>" ]).
Proof.
  cbv zeta. intros Hk. pose proof (process_element_unfold q a t cs flag) as E.
  cbv zeta in E. rewrite E. clear E. unfold html_parts_of. rewrite Hk.
  cbn [recurses fst]. rewrite process_children_fragments.
  do 2 f_equal. f_equal. unfold draw_span. cbn [text_of].
  destruct t as [[|c r]|]; [reflexivity| |reflexivity].
  cbn [truthy andb]. destruct (strip (String c r)); reflexivity.
Qed.

Lemma draw_shows_nonblank_text_witness :
  fst (process_element blank_draw false) =
    join nl [ "<div class='draw' style='border:1px solid #aaa; padding:5px;'>";
              "<div class='static-text'>Hello</div>";
              "</div>" ].
Proof.
  exact (draw_shows_nonblank_text (xfa "draw") ∅ (Some "  ")
           [ Element (xfa "text") ∅ (Some "Hello") [] ] false eq_refl).
Defined.

(** X4: the field, button, text, textEdit, numericEdit and checkButton
    branches never look at child nodes: whatever is nested inside such a node
    is neither rendered nor able to set the linkage flag. *)
Theorem leaf_kinds_ignore_children
    (q : QName) (a : gmap string string) (t : option string)
    (cs : list element) (flag : bool) :
  match kind_of (Element q a t cs) with
  | Field | Button | Text | TextEdit | NumericEdit | CheckButton => True
  | _ => False
  end ->
  process_element (Element q a t cs) flag = process_element (Element q a t []) flag.
Proof.
  intros Hk.
  pose proof (process_element_unfold q a t cs flag) as E1.
  pose proof (process_element_unfold q a t [] flag) as E2.
  cbv zeta in E1, E2. rewrite E1, E2. clear E1 E2.
  unfold html_parts_of.
  change (kind_of (Element q a t [])) with (kind_of (Element q a t cs)).
  destruct (kind_of (Element q a t cs)); try contradiction; reflexivity.
Qed.

Lemma leaf_kinds_ignore_children_witness :
  process_element field_with_child false =
    process_element (Element (xfa "field") {[ "name" := "age" ]} None []) false.
Proof.
  exact (leaf_kinds_ignore_children (xfa "field") {[ "name" := "age" ]} None
           [ Element (xfa "text") ∅ (Some "ignored") [] ] false I).
Defined.

(** X5: the branch is chosen by the lower-cased local name alone: two
    elements with the same attributes, text and children whose local names
    agree up to case render alike, whatever their namespaces. *)
Theorem classification_ignores_namespace_and_case
    (q q' : QName) (a : gmap string string) (t : option string)
    (cs : list element) (flag : bool) :
  lower (localname q) = lower (localname q') ->
  process_element (Element q a t cs) flag = process_element (Element q' a t cs) flag.
Proof.
  intros Hq.
  pose proof (process_element_unfold q a t cs flag) as E1.
  pose proof (process_element_unfold q' a t cs flag) as E2.
  cbv zeta in E1, E2. rewrite E1, E2. clear E1 E2.
  unfold html_parts_of, kind_of. rewrite Hq. reflexivity.
Qed.

Lemma classification_ignores_namespace_and_case_witness :
  process_element (Element (xfa "TextEdit") ∅ None []) false =
    process_element (Element (plain "textedit") ∅ None []) false.
Proof.
  exact (classification_ignores_namespace_and_case
           (xfa "TextEdit") (plain "textedit") ∅ None [] false eq_refl).
Defined.

Lemma descendant_trans t m n : descendant t m -> descendant m n -> descendant t n.
Proof.
  induction 1 as [q a tx cs c Hc|q a tx cs c m Hc _ IH]; intros Hn.
  - eapply descendant_deeper; eassumption.
  - eapply descendant_deeper; [exact Hc|]. apply IH, Hn.
Qed.

(** A render pass only reaches nodes of the subtree it starts from. *)
Lemma visits_in_subtree el n : visits el n -> n = el \/ descendant el n.
Proof.
  induction 1 as [el|q a t cs c n _ Hc _ IH]; [left; reflexivity|right].
  destruct IH as [->|IH].
  - constructor; exact Hc.
  - eapply descendant_deeper; eassumption.
Qed.

(** X6: when no node of the input tree, root included, has a non-empty
    [cascade] attribute, the document carries no linkage script: the slot of
    the script is empty. *)
Theorem no_cascade_no_linkage_script (xfa_xml : element) :
  (forall n, n ∈ nodes xfa_xml -> truthy (get n "cascade") = false) ->
  cascade_js xfa_xml = EmptyString.
Proof.
  intros Hnone. unfold cascade_js, render_pass.
  destruct (snd (process_element (template_of xfa_xml) false)) eqn:E;
    [|reflexivity].
  apply process_element_flag in E as [E|(n & Hv & Hb)]; [discriminate|].
  assert (Hin : n ∈ nodes xfa_xml).
  { unfold nodes. apply visits_in_subtree in Hv.
    destruct (template_of_cases xfa_xml) as [Ht|Ht].
    - rewrite Ht in Hv. destruct Hv as [->|Hv]; [left|right].
      apply elem_of_iterdescendants, Hv.
    - right. apply elem_of_iterdescendants.
      destruct Hv as [->|Hv]; [exact Ht|].
      eapply descendant_trans; eassumption. }
  specialize (Hnone n Hin). unfold bears_cascade in Hb. congruence.
Qed.

Lemma no_cascade_no_linkage_script_witness :
  cascade_js page_with_text_field = EmptyString.
Proof.
  apply (no_cascade_no_linkage_script page_with_text_field).
  intros n Hn. unfold nodes in Hn. cbn in Hn.
  repeat (apply elem_of_cons in Hn as [->|Hn]; [reflexivity|]).
  inversion Hn.
Defined.

Lemma join_nonempty sep parts :
  parts <> [] -> (forall p, p ∈ parts -> p <> EmptyString) ->
  join sep parts <> EmptyString.
Proof.
  destruct parts as [|p rest]; [congruence|]. intros _ Hne.
  assert (Hp : p <> EmptyString) by (apply Hne; left).
  destruct p as [|c r]; [congruence|].
  rewrite join_cons. destruct rest; discriminate.
Qed.

Lemma script_text_nonempty n s : script_text n = Some s -> s <> EmptyString.
Proof.
  unfold script_text. destruct (has_tag (xfa "script") n); [|discriminate].
  cbn [andb]. destruct (text_of n) as [[|c r]|]; cbn [truthy]; congruence.
Qed.

(** X7: the aggregated script is empty exactly when no scripting node below
    the root has text: a non-empty script text anywhere below the root always
    shows up in the blob. *)
Theorem extract_all_js_empty_iff (xfa_xml : element) :
  extract_all_js xfa_xml = EmptyString <->
  forall n, descendant xfa_xml n -> has_tag (xfa "script") n = true ->
            truthy (text_of n) = false.
Proof.
  unfold extract_all_js, findall. rewrite omap_filter_script. split.
  - intros Hj n Hd Ht. apply elem_of_iterdescendants in Hd.
    destruct (script_text n) as [s|] eqn:Es.
    + exfalso. revert Hj. apply join_nonempty.
      * intros Hnil.
        assert (Hs : s ∈ omap script_text (iterdescendants xfa_xml))
          by (apply list_elem_of_omap; exists n; auto).
        rewrite Hnil in Hs. inversion Hs.
      * intros p Hp. apply list_elem_of_omap in Hp as (m & _ & Hm).
        eapply script_text_nonempty, Hm.
    + unfold script_text in Es. rewrite Ht in Es. cbn [andb] in Es.
      destruct (text_of n) as [[|c r]|]; cbn [truthy] in *;
        [reflexivity|discriminate|reflexivity].
  - intros Hall.
    assert (Hnil : omap script_text (iterdescendants xfa_xml) = []).
    { destruct (omap script_text (iterdescendants xfa_xml)) as [|s l] eqn:E;
        [reflexivity|exfalso].
      assert (Hs : s ∈ omap script_text (iterdescendants xfa_xml))
        by (rewrite E; left).
      apply list_elem_of_omap in Hs as (n & Hn & Hs).
      apply elem_of_iterdescendants in Hn. unfold script_text in Hs.
      destruct (has_tag (xfa "script") n) eqn:Ht; [|discriminate].
      rewrite (Hall n Hn Ht) in Hs. discriminate. }
    rewrite Hnil. reflexivity.
Qed.

(** * complete_xml *)

(** ** Facts about strings *)

Lemma append_cons c a b : String c a +:+ b = String c (a +:+ b).
Proof. reflexivity. Qed.

Lemma append_nil b : EmptyString +:+ b = b.
Proof. reflexivity. Qed.

Lemma length_append a b :
  String.length (a +:+ b) = String.length a + String.length b.
Proof.
  induction a as [|c a IH]; [reflexivity|].
  rewrite append_cons. cbn [String.length]. rewrite IH. reflexivity.
Qed.

Lemma take_drop n : forall s, Str.take n s +:+ Str.drop n s = s.
Proof.
  induction n as [|n IH]; intros [|c s]; try reflexivity.
  cbn [Str.take Str.drop]. rewrite append_cons, IH. reflexivity.
Qed.

Lemma length_drop n : forall s, String.length (Str.drop n s) = String.length s - n.
Proof.
  induction n as [|n IH]; intros [|c s]; try reflexivity.
  cbn [Str.drop String.length]. rewrite IH. lia.
Qed.

Lemma length_take n : forall s,
  String.length (Str.take n s) = Nat.min n (String.length s).
Proof.
  induction n as [|n IH]; intros [|c s]; try reflexivity.
  cbn [Str.take String.length]. rewrite IH. reflexivity.
Qed.

Lemma drop_all s : Str.drop (String.length s) s = EmptyString.
Proof. induction s as [|c s IH]; [reflexivity|exact IH]. Qed.

Lemma take_all n : forall s, String.length s <= n -> Str.take n s = s.
Proof.
  induction n as [|n IH]; intros [|c s] H; try reflexivity.
  - cbn in H. lia.
  - cbn [Str.take]. rewrite IH; [reflexivity|cbn in H; lia].
Qed.

Lemma drop_append a : forall b, Str.drop (String.length a) (a +:+ b) = b.
Proof. induction a as [|c a IH]; intros b; [destruct b; reflexivity|apply IH]. Qed.

Lemma take_append a : forall b, Str.take (String.length a) (a +:+ b) = a.
Proof.
  induction a as [|c a IH]; intros b; [destruct b; reflexivity|].
  rewrite append_cons. cbn [String.length Str.take]. rewrite IH. reflexivity.
Qed.

Lemma drop_plus m : forall n s, Str.drop (m + n) s = Str.drop n (Str.drop m s).
Proof.
  induction m as [|m IH]; intros n s; [reflexivity|].
  destruct s as [|c s]; [destruct n; reflexivity|]. apply IH.
Qed.

Lemma take_plus_append a : forall n b,
  Str.take (String.length a + n) (a +:+ b) = a +:+ Str.take n b.
Proof.
  induction a as [|c a IH]; intros n b; [reflexivity|].
  rewrite !append_cons. cbn [String.length Nat.add Str.take]. rewrite IH.
  reflexivity.
Qed.

Lemma startswith_spec s : forall p,
  startswith s p = true <-> exists r, s = p +:+ r.
Proof.
  induction s as [|c s IH]; intros [|x p]; cbn [startswith].
  - split; [exists EmptyString; reflexivity|reflexivity].
  - split; [discriminate|]. intros (r & H). discriminate H.
  - split; [eexists; reflexivity|reflexivity].
  - destruct (ascii_dec x c) as [->|Hne].
    + rewrite IH. split; intros (r & H); exists r.
      * rewrite H. reflexivity.
      * rewrite append_cons in H. congruence.
    + split; [discriminate|]. intros (r & H). rewrite append_cons in H.
      congruence.
Qed.

Lemma startswith_append p r : startswith (p +:+ r) p = true.
Proof. apply startswith_spec. exists r. reflexivity. Qed.

Lemma startswith_take n s p :
  startswith (Str.take n s) p = true -> startswith s p = true.
Proof.
  rewrite !startswith_spec. intros (r & H). exists (r +:+ Str.drop n s).
  rewrite <- append_assoc, <- H, take_drop. reflexivity.
Qed.

Lemma contains_cons c s sub :
  contains (String c s) sub = startswith (String c s) sub || contains s sub.
Proof. reflexivity. Qed.

(** [sub in s] says that [s.find(sub)] is not [-1]. *)
Lemma contains_index s sub :
  contains s sub = match Str.index s sub with Some _ => true | None => false end.
Proof.
  induction s as [|c s IH].
  - cbn [contains Str.index]. destruct (startswith EmptyString sub); reflexivity.
  - rewrite contains_cons. cbn [Str.index].
    destruct (startswith (String c s) sub); [reflexivity|].
    rewrite IH. destruct (Str.index s sub); reflexivity.
Qed.

Lemma index_here s sub i :
  Str.index s sub = Some i ->
  startswith (Str.drop i s) sub = true
  /\ i + String.length sub <= String.length s.
Proof.
  revert i. induction s as [|c s IH]; intros i; cbn [Str.index].
  - destruct (startswith EmptyString sub) eqn:E; [|discriminate].
    intros [= <-]. split; [exact E|]. destruct sub; [cbn; lia|discriminate].
  - destruct (startswith (String c s) sub) eqn:E.
    + intros [= <-]. split; [exact E|].
      apply startswith_spec in E as (r & ->). rewrite length_append. cbn. lia.
    + destruct (Str.index s sub) as [j|] eqn:Ej; [|discriminate].
      intros [= <-]. destruct (IH j eq_refl) as [H1 H2].
      split; [exact H1|cbn [String.length]; lia].
Qed.

(** No occurrence lies before the one [index] reports. *)
Lemma index_first s sub i :
  sub <> EmptyString -> Str.index s sub = Some i ->
  contains (Str.take i s) sub = false.
Proof.
  intros Hsub. revert i. induction s as [|c s IH]; intros i; cbn [Str.index].
  - intros _. destruct i; destruct sub; try reflexivity; congruence.
  - destruct (startswith (String c s) sub) eqn:E.
    + intros [= <-]. destruct sub; [congruence|reflexivity].
    + destruct (Str.index s sub) as [j|] eqn:Ej; [|discriminate].
      intros [= <-]. cbn [Str.take]. rewrite contains_cons, (IH j eq_refl).
      rewrite orb_false_r.
      destruct (startswith (String c (Str.take j s)) sub) eqn:E'; [|reflexivity].
      apply (startswith_take (S j) (String c s)) in E'. congruence.
Qed.

Lemma contains_append_r a b sub :
  contains (a +:+ b) sub = false -> contains b sub = false.
Proof.
  induction a as [|c a IH]; [destruct b; auto|].
  rewrite append_cons, contains_cons, orb_false_iff. intros [_ H]. apply IH, H.
Qed.

(** When [sub] cannot start inside [a], its first occurrence in [a +:+ r] is
    its first occurrence in [r]. *)
Lemma index_past a : forall r sub,
  (forall d, d < String.length a ->
             startswith (Str.drop d (a +:+ r)) sub = false) ->
  Str.index (a +:+ r) sub = option_map (Nat.add (String.length a)) (Str.index r sub).
Proof.
  induction a as [|c a IH]; intros r sub H.
  - change (EmptyString +:+ r) with r. destruct (Str.index r sub); reflexivity.
  - pose proof (H 0 ltac:(cbn; lia)) as H0. cbn [Str.drop] in H0.
    rewrite append_cons in H0 |- *. cbn [Str.index]. rewrite H0, IH.
    + destruct (Str.index r sub); reflexivity.
    + intros d Hd. apply (H (S d)). cbn. lia.
Qed.

(** ** Cutting the text down to its root element *)

Lemma clamp_nat len n : Str.clamp len (Z.of_nat n) = Nat.min len n.
Proof.
  unfold Str.clamp. destruct (Z.ltb_spec (Z.of_nat n) 0) as [H|_]; [lia|].
  rewrite Nat2Z.id. reflexivity.
Qed.

Lemma find_index x sub i :
  Str.index x sub = Some i -> Str.find x sub = Z.of_nat i.
Proof.
  intros H. unfold Str.find, Str.find_from.
  destruct (Z.ltb_spec (Z.of_nat (String.length x)) 0) as [Hlt|_]; [lia|].
  rewrite (clamp_nat _ 0), Nat.min_0_r. cbn [Str.drop]. 
  replace (Str.drop 0 x) with x by (destruct x; reflexivity).
  rewrite H. reflexivity.
Qed.

Section RootSearch.
Variables marker closing : string.
Hypothesis closing_nonempty : closing <> EmptyString.
Hypothesis closing_clear :
  forall d r, d < String.length marker ->
              startswith (Str.drop d (marker +:+ r)) closing = false.

(** What [cut_to_root] returns when the opening marker first occurs at
    offset [i]: the text from the marker on with the closing tag appended,
    or the text from the marker to the first closing tag after it. *)
Lemma cut_to_root_spec x i :
  Str.index x marker = Some i ->
  exists rest,
    x = Str.take i x +:+ marker +:+ rest
    /\ cut_to_root x (Str.find x marker) closing =
         match Str.index rest closing with
         | None => marker +:+ rest +:+ nl +:+ closing
         | Some j => marker +:+ Str.take j rest +:+ closing
         end.
Proof.
  intros Hi. destruct (index_here x marker i Hi) as [Hm Hlen].
  apply startswith_spec in Hm as (rest & Hrest). exists rest.
  assert (Hx : x = Str.take i x +:+ marker +:+ rest)
    by (rewrite <- Hrest; symmetry; apply take_drop).
  split; [exact Hx|].
  rewrite (find_index x marker i Hi). unfold cut_to_root, Str.find_from.
  destruct (Z.ltb_spec (Z.of_nat (String.length x)) (Z.of_nat i)) as [Hlt|_];
    [lia|].
  rewrite clamp_nat, Nat.min_r by lia. rewrite Hrest.
  rewrite (index_past marker rest closing (fun d Hd => closing_clear d rest Hd)).
  destruct (Str.index rest closing) as [j|] eqn:Ej; cbn [option_map].
  - destruct (index_here rest closing j Ej) as [Hc Hj].
    destruct (Z.eqb_spec (Z.of_nat (i + (String.length marker + j))) (-1))
      as [H|_]; [lia|].
    unfold Str.slice. rewrite clamp_nat, Nat.min_r by lia.
    rewrite <- Nat2Z.inj_add, clamp_nat.
    assert (Hl : String.length x = i + (String.length marker + String.length rest)).
    { rewrite Hx at 1. rewrite !length_append, length_take. lia. }
    rewrite Nat.min_r by lia. rewrite Hrest.
    replace (i + (String.length marker + j) + String.length closing - i)
      with (String.length marker + (j + String.length closing)) by lia.
    rewrite take_plus_append. f_equal.
    apply startswith_spec in Hc as (post & Hpost).
    rewrite <- (take_drop j rest) at 1. rewrite Hpost.
    assert (Hjl : String.length (Str.take j rest) = j)
      by (rewrite length_take; lia).
    rewrite <- Hjl at 1. rewrite take_plus_append, take_append. reflexivity.
  - cbn [Z.eqb]. unfold Str.slice_from. rewrite clamp_nat, Nat.min_r by lia.
    rewrite Hrest, !append_assoc. reflexivity.
Qed.

End RootSearch.

Lemma cut_to_root_cases marker closing x :
  marker <> EmptyString -> closing <> EmptyString ->
  (forall d r, d < String.length marker ->
               startswith (Str.drop d (marker +:+ r)) closing = false) ->
  contains x marker = true ->
  exists pre rest,
    x = pre +:+ marker +:+ rest
    /\ contains pre marker = false
    /\ ((contains rest closing = false
         /\ cut_to_root x (Str.find x marker) closing =
              marker +:+ rest +:+ nl +:+ closing)
        \/ (exists body post,
              rest = body +:+ closing +:+ post
              /\ contains body closing = false
              /\ cut_to_root x (Str.find x marker) closing =
                   marker +:+ body +:+ closing)).
Proof.
  intros Hm Hc Hclear Hin. rewrite contains_index in Hin.
  destruct (Str.index x marker) as [i|] eqn:Hi; [|discriminate].
  destruct (cut_to_root_spec marker closing Hclear x i Hi) as (rest & Hx & Hcut).
  exists (Str.take i x), rest. split; [exact Hx|].
  split; [apply index_first; assumption|].
  rewrite Hcut. destruct (Str.index rest closing) as [j|] eqn:Ej.
  - right. destruct (index_here rest closing j Ej) as [Hs _].
    apply startswith_spec in Hs as (post & Hpost).
    exists (Str.take j rest), post. split; [|split].
    + rewrite <- Hpost. symmetry. apply take_drop.
    + apply index_first; assumption.
    + reflexivity.
  - left. split; [|reflexivity]. rewrite contains_index, Ej. reflexivity.
Qed.

Lemma xdp_closing_clear d r :
  d < String.length "<xdp:xdp" ->
  startswith (Str.drop d ("<xdp:xdp" +:+ r)) "</xdp:xdp>" = false.
Proof.
  intros Hd. do 8 (destruct d as [|d]; [reflexivity|]). cbn in Hd. lia.
Qed.

Lemma config_closing_clear d r :
  d < String.length "<config" ->
  startswith (Str.drop d ("<config" +:+ r)) "</config>" = false.
Proof.
  intros Hd. do 7 (destruct d as [|d]; [reflexivity|]). cbn in Hd. lia.
Qed.

(** X8: when the text holds [<xdp:xdp], [complete_xml] returns the text
    from its first [<xdp:xdp] on, whether or not [<config] occurs too or
    earlier: up to and including the first [</xdp:xdp>] that follows, with
    everything after it dropped, or, when no [</xdp:xdp>] follows, to the end
    with a line break and [</xdp:xdp>] appended.  What precedes the root, an
    XML declaration included, is dropped. *)
Theorem complete_xml_xdp_root (xfa_str : string) :
  contains (declarations_merged xfa_str) "<xdp:xdp" = true ->
  exists pre rest,
    declarations_merged xfa_str = pre +:+ "<xdp:xdp" +:+ rest
    /\ contains pre "<xdp:xdp" = false
    /\ ((contains rest "</xdp:xdp>" = false
         /\ complete_xml xfa_str = "<xdp:xdp" +:+ rest +:+ nl +:+ "</xdp:xdp>")
        \/ (exists body post,
              rest = body +:+ "</xdp:xdp>" +:+ post
              /\ contains body "</xdp:xdp>" = false
              /\ complete_xml xfa_str = "<xdp:xdp" +:+ body +:+ "</xdp:xdp>")).
Proof.
  intros Hin.
  change (complete_xml xfa_str) with
    (let x := declarations_merged xfa_str in
     if contains x "<xdp:xdp"
     then cut_to_root x (Str.find x "<xdp:xdp") "</xdp:xdp>"
     else if contains x "<config"
     then cut_to_root x (Str.find x "<config") "</config>"
     else x).
  cbv zeta. rewrite Hin.
  apply cut_to_root_cases; [discriminate|discriminate| |exact Hin].
  apply xdp_closing_clear.
Qed.

Lemma complete_xml_xdp_root_witness :
  exists pre rest,
    declarations_merged "junk<config/><xdp:xdp a>body</xdp:xdp>tail"
      = pre +:+ "<xdp:xdp" +:+ rest
    /\ contains pre "<xdp:xdp" = false
    /\ ((contains rest "</xdp:xdp>" = false
         /\ complete_xml "junk<config/><xdp:xdp a>body</xdp:xdp>tail"
              = "<xdp:xdp" +:+ rest +:+ nl +:+ "</xdp:xdp>")
        \/ (exists body post,
              rest = body +:+ "</xdp:xdp>" +:+ post
              /\ contains body "</xdp:xdp>" = false
              /\ complete_xml "junk<config/><xdp:xdp a>body</xdp:xdp>tail"
                   = "<xdp:xdp" +:+ body +:+ "</xdp:xdp>")).
Proof.
  apply (complete_xml_xdp_root "junk<config/><xdp:xdp a>body</xdp:xdp>tail").
  vm_compute. reflexivity.
Defined.

(** X9: when the text holds no [<xdp:xdp] but holds [<config], the same
    cut is made at the first [<config] with [</config>] as closing tag. *)
Theorem complete_xml_config_root (xfa_str : string) :
  contains (declarations_merged xfa_str) "<xdp:xdp" = false ->
  contains (declarations_merged xfa_str) "<config" = true ->
  exists pre rest,
    declarations_merged xfa_str = pre +:+ "<config" +:+ rest
    /\ contains pre "<config" = false
    /\ ((contains rest "</config>" = false
         /\ complete_xml xfa_str = "<config" +:+ rest +:+ nl +:+ "</config>")
        \/ (exists body post,
              rest = body +:+ "</config>" +:+ post
              /\ contains body "</config>" = false
              /\ complete_xml xfa_str = "<config" +:+ body +:+ "</config>")).
Proof.
  intros Hno Hin.
  change (complete_xml xfa_str) with
    (let x := declarations_merged xfa_str in
     if contains x "<xdp:xdp"
     then cut_to_root x (Str.find x "<xdp:xdp") "</xdp:xdp>"
     else if contains x "<config"
     then cut_to_root x (Str.find x "<config") "</config>"
     else x).
  cbv zeta. rewrite Hno, Hin.
  apply cut_to_root_cases; [discriminate|discriminate| |exact Hin].
  apply config_closing_clear.
Qed.

Lemma complete_xml_config_root_witness :
  exists pre rest,
    declarations_merged "  <config>x" = pre +:+ "<config" +:+ rest
    /\ contains pre "<config" = false
    /\ ((contains rest "</config>" = false
         /\ complete_xml "  <config>x" = "<config" +:+ rest +:+ nl +:+ "</config>")
        \/ (exists body post,
              rest = body +:+ "</config>" +:+ post
              /\ contains body "</config>" = false
              /\ complete_xml "  <config>x" = "<config" +:+ body +:+ "</config>")).
Proof.
  apply (complete_xml_config_root "  <config>x"); vm_compute; reflexivity.
Defined.

(** ** Removing XML declarations *)

Lemma contains_drop n : forall s sub,
  contains s sub = false -> contains (Str.drop n s) sub = false.
Proof.
  induction n as [|n IH]; intros [|c s] sub H; try exact H.
  cbn [Str.drop]. apply IH. rewrite contains_cons in H.
  apply orb_false_iff in H. apply H.
Qed.

Lemma contains_startswith s sub : contains s sub = false -> startswith s sub = false.
Proof.
  destruct s as [|c s]; [cbn [contains]|rewrite contains_cons];
    intros H; apply orb_false_iff in H; apply H.
Qed.

Lemma match_decl_none s :
  contains s "<?xml" = false \/ contains s "?>" = false ->
  Re.match_decl s = None.
Proof.
  intros [H|H]; unfold Re.match_decl.
  - rewrite (contains_startswith _ _ H). reflexivity.
  - destruct (startswith s "<?xml"); [|reflexivity].
    apply (contains_drop 5) in H. rewrite contains_index in H.
    destruct (Str.index (Str.drop 5 s) "?>"); [discriminate|reflexivity].
Qed.

Lemma sub_decls_unchanged s :
  contains s "<?xml" = false \/ contains s "?>" = false ->
  Re.sub_decls s = s.
Proof.
  unfold Re.sub_decls. induction s as [|c s IH]; intros H; [reflexivity|].
  cbn [Re.sub_decls_from]. rewrite (match_decl_none _ H), IH; [reflexivity|].
  rewrite !contains_cons, !orb_false_iff in H. tauto.
Qed.

(** X10: a text without a complete XML declaration, one that holds no
    [<?xml] or no [?>], and without [<xdp:xdp] and [<config] comes back
    with its leading whitespace stripped and is otherwise unchanged; an
    unterminated declaration stays where it is. *)
Theorem complete_xml_passes_rootless_text (xfa_str : string) :
  contains (lstrip xfa_str) "<?xml" = false
  \/ contains (lstrip xfa_str) "?>" = false ->
  contains (lstrip xfa_str) "<xdp:xdp" = false ->
  contains (lstrip xfa_str) "<config" = false ->
  complete_xml xfa_str = lstrip xfa_str.
Proof.
  intros Hd Hx Hc. unfold complete_xml.
  rewrite (match_decl_none _ Hd), (sub_decls_unchanged _ Hd).
  cbn [truthy]. rewrite Hx, Hc. reflexivity.
Qed.

Lemma complete_xml_passes_rootless_text_witness :
  complete_xml "  <?xml never closed <form/>" = "<?xml never closed <form/>".
Proof.
  apply (complete_xml_passes_rootless_text "  <?xml never closed <form/>");
    [right| |]; vm_compute; reflexivity.
Defined.

(** If a pattern shows up at the head of [u +:+ next], it shows up at the
    head of [u], or [u] is a prefix of it and the rest heads [next]. *)
Lemma startswith_extend u : forall next p,
  startswith (u +:+ next) p = true ->
  startswith u p = true \/ exists q, p = u +:+ q /\ startswith next q = true.
Proof.
  induction u as [|c u IH]; intros next p H.
  - right. exists p. split; [reflexivity|exact H].
  - destruct p as [|x p]; [left; reflexivity|].
    rewrite append_cons in H. cbn [startswith] in H |- *.
    destruct (ascii_dec x c) as [->|]; [|discriminate].
    destruct (IH next p H) as [Hl|(q & -> & Hq)]; [left; exact Hl|right].
    exists q. split; [reflexivity|exact Hq].
Qed.

(** Skipping exactly the characters of [a]. *)
Lemma sub_decls_from_skip a : forall r,
  Re.sub_decls_from (String.length a) (a +:+ r) = Re.sub_decls_from 0 r.
Proof.
  induction a as [|c a IH]; intros r; [reflexivity|].
  rewrite append_cons. cbn [String.length Re.sub_decls_from]. apply IH.
Qed.

Lemma index_head s sub : startswith s sub = true -> Str.index s sub = Some 0.
Proof. intros H. destruct s; cbn [Str.index]; rewrite H; reflexivity. Qed.

(** A body without [?>] is closed by the [?>] that follows it. *)
Lemma index_of_terminator body r :
  contains body "?>" = false ->
  Str.index (body +:+ "?>" +:+ r) "?>" = Some (String.length body).
Proof.
  intros Hb. rewrite index_past.
  - rewrite (index_head ("?>" +:+ r) "?>") by apply startswith_append.
    cbn [option_map]. f_equal. lia.
  - intros d Hd.
    destruct (startswith (Str.drop d (body +:+ "?>" +:+ r)) "?>") eqn:E;
      [exfalso|reflexivity].
    assert (Hsplit : Str.drop d (body +:+ "?>" +:+ r)
                     = Str.drop d body +:+ "?>" +:+ r).
    { rewrite <- (take_drop d body) at 1. rewrite append_assoc.
      assert (Hl : String.length (Str.take d body) = d)
        by (rewrite length_take; lia).
      rewrite <- Hl at 1. apply drop_append. }
    rewrite Hsplit in E.
    pose proof (contains_startswith _ _ (contains_drop d _ _ Hb)) as Hs.
    apply startswith_extend in E as [E|(q & Hq & Hn)]; [congruence|].
    destruct (Str.drop d body) as [|c [|c' u]] eqn:Eu.
    + apply (f_equal String.length) in Eu. rewrite length_drop in Eu.
      cbn in Eu. lia.
    + rewrite append_cons, append_nil in Hq. injection Hq as <- <-.
      discriminate Hn.
    + rewrite !append_cons in Hq. injection Hq as <- <- Hq.
      change (String "?" (String ">" u)) with ("?>" +:+ u) in Hs.
      rewrite startswith_append in Hs. discriminate Hs.
Qed.

(** A declaration at the head of the text is removed whole. *)
Lemma sub_decls_head body r :
  contains body "?>" = false ->
  Re.sub_decls (declaration body +:+ r) = Re.sub_decls r.
Proof.
  intros Hb. unfold Re.sub_decls, declaration.
  rewrite !append_assoc.
  change ("<?xml" +:+ body +:+ "?>" +:+ r)
    with (String "<" ("?xml" +:+ body +:+ "?>" +:+ r)).
  cbn [Re.sub_decls_from]. unfold Re.match_decl.
  change (String "<" ("?xml" +:+ body +:+ "?>" +:+ r))
    with ("<?xml" +:+ body +:+ "?>" +:+ r) at 1.
  rewrite startswith_append.
  change (Str.drop 5 (String "<" ("?xml" +:+ body +:+ "?>" +:+ r)))
    with (body +:+ "?>" +:+ r).
  rewrite (index_of_terminator body r Hb). cbn [option_map Nat.add].
  replace (S (S (S (S (String.length body + 2)))))
    with (String.length ("?xml" +:+ body +:+ "?>"))
    by (rewrite !length_append; cbn; lia).
  rewrite <- (sub_decls_from_skip ("?xml" +:+ body +:+ "?>") r).
  rewrite !append_assoc. reflexivity.
Qed.

Lemma append_tail_head t : forall s y q,
  s = t +:+ String y q -> In y (list_ascii_of_string s).
Proof.
  induction t as [|c t IH]; intros s y q ->.
  - left. reflexivity.
  - rewrite append_cons. right. eapply IH. reflexivity.
Qed.

(** Text that holds no [<?xml] is copied when what follows is empty or
    begins with [<]. *)
Lemma sub_decls_copy text next :
  contains text "<?xml" = false ->
  next = EmptyString \/ (exists r, next = String "<" r) ->
  Re.sub_decls (text +:+ next) = text +:+ Re.sub_decls next.
Proof.
  intros Ht Hnext. unfold Re.sub_decls.
  induction text as [|c text IH]; [reflexivity|].
  rewrite contains_cons in Ht. apply orb_false_iff in Ht as [Hs Ht].
  rewrite !append_cons. cbn [Re.sub_decls_from].
  assert (Hm : Re.match_decl (String c (text +:+ next)) = None).
  { unfold Re.match_decl.
    destruct (startswith (String c (text +:+ next)) "<?xml") eqn:E;
      [exfalso|reflexivity].
    rewrite <- append_cons in E.
    apply startswith_extend in E as [E|(q & Hq & Hn)]; [congruence|].
    rewrite append_cons in Hq. injection Hq as <- Hq.
    assert (Hhead : q = EmptyString \/ exists y q', q = String y q' /\ y <> "<"%char).
    { destruct q as [|y q']; [left; reflexivity|right].
      exists y, q'. split; [reflexivity|]. intros ->.
      apply append_tail_head in Hq. cbn in Hq.
      repeat (destruct Hq as [Hq|Hq]; [discriminate Hq|]). exact Hq. }
    destruct Hhead as [->|(y & q' & -> & Hy)].
    - rewrite append_empty_r in Hq. subst text. vm_compute in Hs.
      discriminate Hs.
    - destruct Hnext as [->|(r & ->)]; [discriminate Hn|].
      cbn [startswith] in Hn. destruct (ascii_dec y "<"); [contradiction|discriminate]. }
  rewrite Hm, (IH Ht). reflexivity.
Qed.

Lemma assemble_head segments :
  assemble segments = EmptyString \/ exists r, assemble segments = String "<" r.
Proof.
  destruct segments as [|[body text] rest]; [left; reflexivity|right].
  eexists. reflexivity.
Qed.

Lemma sub_decls_assemble segments :
  Forall well_segmented segments ->
  Re.sub_decls (assemble segments) = texts_of segments.
Proof.
  induction 1 as [|[body text] rest [Hb Ht] _ IH]; [reflexivity|].
  cbn [assemble texts_of fst snd] in *.
  rewrite (sub_decls_head body _ Hb).
  rewrite (sub_decls_copy text _ Ht (assemble_head rest)), IH. reflexivity.
Qed.

Lemma match_decl_head body r :
  contains body "?>" = false ->
  Re.match_decl (declaration body +:+ r) = Some (String.length (declaration body)).
Proof.
  intros Hb. unfold Re.match_decl, declaration. rewrite !append_assoc.
  rewrite startswith_append.
  change (Str.drop 5 ("<?xml" +:+ body +:+ "?>" +:+ r)) with (body +:+ "?>" +:+ r).
  rewrite (index_of_terminator body r Hb). cbn [option_map].
  rewrite !length_append. reflexivity.
Qed.

(** X11: in a text that opens with an XML declaration and holds further
    declarations between stretches of other text, every declaration is
    removed and the first one alone is put back at the front, so that the
    text [complete_xml] goes on with carries exactly one declaration. *)
Theorem first_declaration_survives_alone
    (body text : string) (rest : list (string * string)) :
  Forall well_segmented ((body, text) :: rest) ->
  declarations_merged (assemble ((body, text) :: rest)) =
    declaration body +:+ texts_of ((body, text) :: rest).
Proof.
  intros Hall. pose proof Hall as Hhead.
  apply Forall_cons in Hhead as [[Hb _] _]. cbn [fst] in Hb.
  unfold declarations_merged.
  assert (Hl : lstrip (assemble ((body, text) :: rest))
               = assemble ((body, text) :: rest)) by reflexivity.
  rewrite Hl. clear Hl. rewrite (sub_decls_assemble _ Hall).
  cbn [assemble]. rewrite (match_decl_head body _ Hb), take_append.
  reflexivity.
Qed.

Lemma first_declaration_survives_alone_witness :
  declarations_merged
    (assemble [ (" version='1.0'", "<form>"); (" encoding='x'", "</form>") ])
  = "<?xml version='1.0'?><form></form>".
Proof.
  apply (first_declaration_survives_alone " version='1.0'" "<form>"
           [ (" encoding='x'", "</form>") ]).
  repeat constructor.
Defined.

(** * extract_xfa_data: decoding the XFA entry *)

Lemma range_step2_SS n :
  Pdf.range_step2 (S (S n)) = 0 :: map (fun i => 2 + i) (Pdf.range_step2 n).
Proof.
  unfold Pdf.range_step2.
  replace (Nat.div2 (S (S n) + 1)) with (S (Nat.div2 (n + 1)))
    by (replace (S (S n) + 1) with (S (S (n + 1))) by lia; reflexivity).
  cbn [seq map]. f_equal. rewrite <- seq_shift, !map_map.
  apply map_ext. intros k. lia.
Qed.

Lemma list_parts_shift decode k v l idx :
  Pdf.list_parts decode (map (fun i => 2 + i) idx) (k :: v :: l)
  = Pdf.list_parts decode idx l.
Proof.
  induction idx as [|i idx IH]; [reflexivity|].
  cbn [map Pdf.list_parts]. rewrite IH.
  change (length (k :: v :: l)) with (S (S (length l))).
  change (2 + i + 1) with (S (S (i + 1))).
  change (S (S (i + 1)) <? S (S (length l))) with (i + 1 <? length l).
  reflexivity.
Qed.

(** One turn of the loop takes the second element of a pair. *)
Lemma list_parts_pair decode k v l :
  Pdf.list_parts decode (Pdf.range_step2 (length (k :: v :: l))) (k :: v :: l)
  = match part_value decode v with
    | None => None
    | Some x =>
        option_map (cons x)
          (Pdf.list_parts decode (Pdf.range_step2 (length l)) l)
    end.
Proof.
  change (length (k :: v :: l)) with (S (S (length l))).
  rewrite range_step2_SS. cbn [Pdf.list_parts]. rewrite list_parts_shift.
  change (0 + 1 <? S (S (length l))) with true. cbv iota.
  change ((k :: v :: l) !! (0 + 1)) with (Some v). cbv iota.
  unfold part_value. destruct v as [x|[x|]]; reflexivity.
Qed.

Lemma list_parts_interleave decode pairs trailing :
  length trailing <= 1 ->
  Pdf.list_parts decode
    (Pdf.range_step2 (length (interleave pairs ++ trailing)))
    (interleave pairs ++ trailing)
  = all_some (part_value decode) (map snd pairs).
Proof.
  intros Ht. induction pairs as [|[k v] pairs IH].
  - destruct trailing as [|x [|y t]]; [reflexivity|reflexivity|cbn in Ht; lia].
  - cbn [interleave map snd all_some]. rewrite <- !app_comm_cons.
    rewrite list_parts_pair, IH.
    destruct (part_value decode v); [|reflexivity].
    destruct (all_some (part_value decode) (map snd pairs)); reflexivity.
Qed.

Lemma str_join_texts sep parts :
  Pdf.str_join sep parts = option_map (join sep) (all_some str_only parts).
Proof.
  induction parts as [|v parts IH]; [reflexivity|].
  destruct v as [b|s|shown]; try reflexivity.
  cbn [Pdf.str_join all_some str_only].
  destruct parts as [|w parts]; [reflexivity|].
  rewrite IH.
  destruct (all_some str_only (w :: parts)) as [ss|] eqn:E; [|reflexivity].
  destruct ss as [|s1 ss]; [|reflexivity].
  cbn [all_some] in E. destruct (str_only w); [|discriminate E].
  destruct (all_some str_only parts); discriminate E.
Qed.

Lemma all_some_compose {A B C} (f : A -> option B) (g : B -> option C)
    (l : list A) :
  match all_some f l with
  | Some ys => all_some g ys
  | None => None
  end = all_some (fun x => match f x with Some y => g y | None => None end) l.
Proof.
  induction l as [|x l IH]; [reflexivity|].
  cbn [all_some]. rewrite <- IH.
  destruct (f x) as [y|]; [|reflexivity].
  destruct (all_some f l) as [ys|]; cbn [all_some]; [reflexivity|].
  destruct (g y); reflexivity.
Qed.

Lemma all_some_ext {A B} (f g : A -> option B) (l : list A) :
  (forall x, f x = g x) -> all_some f l = all_some g l.
Proof.
  intros H. induction l as [|x l IH]; [reflexivity|].
  cbn [all_some]. rewrite H, IH. reflexivity.
Qed.

Lemma part_text_value decode p :
  part_text decode p
  = match part_value decode p with Some y => str_only y | None => None end.
Proof. destruct p as [[| |]|[[| |]|]]; reflexivity. Qed.

(** X12: a non-empty XFA array is read as alternating keys and values: the
    keys, at the even positions, are dropped, every value is taken in order,
    an indirect one through its stream data, bytes decoded, and an unpaired
    last element is ignored; the values are joined by line breaks.  If a
    value cannot be read or is neither text nor bytes, nothing is returned. *)
Theorem xfa_array_joins_values
    (decode str_of_bytes : list Byte.byte -> string)
    (pairs : list (Pdf.part * Pdf.part)) (trailing : list Pdf.part) :
  length trailing <= 1 ->
  interleave pairs ++ trailing <> [] ->
  Pdf.extract_xfa_data decode str_of_bytes
    (Some (Pdf.XList (interleave pairs ++ trailing)))
  = option_map (join nl) (all_some (part_text decode) (map snd pairs)).
Proof.
  intros Ht Hne. cbn [Pdf.extract_xfa_data].
  replace (Pdf.is_true (Pdf.XList (interleave pairs ++ trailing))) with true
    by (destruct (interleave pairs ++ trailing); [contradiction|reflexivity]).
  cbn [Pdf.decode_xfa_data].
  rewrite (list_parts_interleave decode pairs trailing Ht).
  rewrite (all_some_ext _ _ _ (part_text_value decode)).
  rewrite <- all_some_compose.
  destruct (all_some (part_value decode) (map snd pairs)); [|reflexivity].
  apply str_join_texts.
Qed.

Lemma xfa_array_joins_values_witness :
  length [Pdf.Direct (Pdf.Str "stray")] <= 1 /\
  Pdf.extract_xfa_data latin1 latin1
    (Some (Pdf.XList
       (interleave
          [ (Pdf.Direct (Pdf.Str "template"),
             Pdf.IndirectObject (Some (Pdf.Bytes [Byte.x3c; Byte.x61; Byte.x3e])));
            (Pdf.Direct (Pdf.Str "datasets"), Pdf.Direct (Pdf.Str "<b/>")) ]
        ++ [Pdf.Direct (Pdf.Str "stray")])))
  = Some ("<a>" +:+ nl +:+ "<b/>").
Proof.
  split; [cbn; lia|].
  rewrite (xfa_array_joins_values latin1 latin1);
    [reflexivity|cbn; lia|discriminate].
Defined.

Lemma entries_under_absent key entries :
  key ∉ map fst entries -> entries_under key entries = [].
Proof.
  induction entries as [|[k v] rest IH]; [reflexivity|].
  cbn [map fst]. intros Hk. unfold entries_under in *.
  cbn [List.filter fst].
  destruct (String.eqb_spec k key) as [->|_].
  - exfalso. apply Hk. apply list_elem_of_here.
  - apply IH. intros Hin. apply Hk. apply list_elem_of_further, Hin.
Qed.

Lemma dict_get_entries_under key entries :
  NoDup (map fst entries) ->
  match Pdf.dict_get entries key with Some v => [v] | None => [] end
  = map snd (entries_under key entries).
Proof.
  induction entries as [|[k v] rest IH]; [reflexivity|].
  cbn [map fst]. intros Hnd. apply NoDup_cons in Hnd as [Hk Hnd].
  unfold entries_under in *. cbn [Pdf.dict_get List.filter fst].
  destruct (String.eqb_spec k key) as [->|_].
  - cbn [map snd]. f_equal.
    pose proof (entries_under_absent key rest Hk) as E.
    unfold entries_under in E. rewrite E. reflexivity.
  - apply IH, Hnd.
Qed.

Lemma omap_other_entries decode entries :
  omap (fun kv : string * Pdf.value =>
          if existsb (String.eqb (fst kv)) Pdf.ordered_keys then None
          else Some (Pdf.decode_if_bytes decode (snd kv))) entries
  = map (fun kv => Pdf.decode_if_bytes decode (snd kv)) (other_entries entries).
Proof.
  set (f := fun kv : string * Pdf.value =>
              if existsb (String.eqb (fst kv)) Pdf.ordered_keys then None
              else Some (Pdf.decode_if_bytes decode (snd kv))).
  induction entries as [|[k v] rest IH]; [reflexivity|].
  change (omap f ((k, v) :: rest))
    with (match f (k, v) with
          | Some y => y :: omap f rest
          | None => omap f rest
          end).
  rewrite IH. unfold f, other_entries.
  cbn [List.filter fst snd existsb Pdf.ordered_keys].
  destruct (String.eqb k "preamble"), (String.eqb k "config"); reflexivity.
Qed.

Lemma omap_two {A B} (f : A -> option B) (a b : A) :
  omap f [a; b]
  = match f a with Some y => [y] | None => [] end
    ++ match f b with Some y => [y] | None => [] end.
Proof.
  change (omap f [a; b])
    with (match f a with
          | Some y => y :: match f b with Some z => [z] | None => [] end
          | None => match f b with Some z => [z] | None => [] end
          end).
  destruct (f a), (f b); reflexivity.
Qed.

Lemma dict_parts_order decode entries :
  NoDup (map fst entries) ->
  Pdf.dict_parts decode entries
  = map (fun kv => Pdf.decode_if_bytes decode (snd kv))
      (preamble_config_first entries).
Proof.
  intros Hnd. unfold Pdf.dict_parts, preamble_config_first.
  rewrite omap_other_entries, !map_app. rewrite app_assoc. f_equal.
  unfold Pdf.ordered_keys. rewrite omap_two.
  pose proof (dict_get_entries_under "preamble" entries Hnd) as Hp.
  pose proof (dict_get_entries_under "config" entries Hnd) as Hc.
  rewrite <- (map_map snd (Pdf.decode_if_bytes decode)
                (entries_under "preamble" entries)).
  rewrite <- (map_map snd (Pdf.decode_if_bytes decode)
                (entries_under "config" entries)).
  rewrite <- Hp, <- Hc.
  destruct (Pdf.dict_get entries "preamble"),
    (Pdf.dict_get entries "config"); reflexivity.
Qed.

Lemma all_some_map {A B C} (f : B -> option C) (g : A -> B) (l : list A) :
  all_some f (map g l) = all_some (fun x => f (g x)) l.
Proof.
  induction l as [|x l IH]; [reflexivity|].
  cbn [map all_some]. rewrite IH. reflexivity.
Qed.

Lemma value_text_decoded decode v :
  str_only (Pdf.decode_if_bytes decode v) = value_text decode v.
Proof. destruct v; reflexivity. Qed.

Lemma filter_partition3 {A} (p q : A -> bool) (l : list A) :
  (forall x, p x = true -> q x = false) ->
  List.filter p l ++ List.filter q l
  ++ List.filter (fun x => negb (p x) && negb (q x)) l ≡ₚ l.
Proof.
  intros Hpq. induction l as [|x l IH]; [reflexivity|].
  cbn [List.filter].
  destruct (p x) eqn:Ep.
  - rewrite (Hpq x Ep). cbn [negb andb]. rewrite <- app_comm_cons.
    constructor. exact IH.
  - destruct (q x) eqn:Eq; cbn [negb andb].
    + rewrite <- app_comm_cons, <- Permutation_middle. constructor. exact IH.
    + rewrite <- !Permutation_middle. constructor. exact IH.
Qed.

(** X13: a non-empty XFA dictionary is read with the entry under preamble
    first, then the one under config, then every other entry in the order of
    the dictionary; each entry is taken exactly once, bytes are decoded and
    the values are joined by line breaks.  A value that is neither text nor
    bytes makes the extraction return nothing. *)
Theorem xfa_dictionary_preamble_config_first
    (decode str_of_bytes : list Byte.byte -> string)
    (entries : list (string * Pdf.value)) :
  NoDup (map fst entries) ->
  entries <> [] ->
  Pdf.extract_xfa_data decode str_of_bytes (Some (Pdf.XDict entries))
  = option_map (join nl)
      (all_some (value_text decode) (map snd (preamble_config_first entries)))
  /\ preamble_config_first entries ≡ₚ entries.
Proof.
  intros Hnd Hne. split.
  - cbn [Pdf.extract_xfa_data].
    replace (Pdf.is_true (Pdf.XDict entries)) with true
      by (destruct entries; [contradiction|reflexivity]).
    cbn [Pdf.decode_xfa_data]. rewrite str_join_texts.
    rewrite (dict_parts_order decode entries Hnd), !all_some_map.
    f_equal. apply all_some_ext. intros kv. apply value_text_decoded.
  - unfold preamble_config_first, entries_under, other_entries.
    apply filter_partition3. intros [k v]. cbn [fst].
    destruct (String.eqb_spec k "preamble") as [->|_]; [reflexivity|discriminate].
Qed.

Lemma xfa_dictionary_preamble_config_first_witness :
  Pdf.extract_xfa_data latin1 latin1
    (Some (Pdf.XDict
       [ ("template", Pdf.Str "<t/>");
         ("config", Pdf.Bytes [Byte.x3c; Byte.x63; Byte.x3e]);
         ("datasets", Pdf.Str "<d/>");
         ("preamble", Pdf.Str "<p>") ]))
  = Some ("<p>" +:+ nl +:+ "<c>" +:+ nl +:+ "<t/>" +:+ nl +:+ "<d/>").
Proof.
  refine (eq_trans
    (proj1 (xfa_dictionary_preamble_config_first latin1 latin1 _ _ _)) _);
    [|discriminate|reflexivity].
  cbn [map fst]. repeat (apply NoDup_cons; split; [|]).
  all: try apply NoDup_nil_2.
  all: rewrite list_elem_of_In; cbn; intros H;
    repeat (destruct H as [H|H]; [discriminate H|]); exact H.
Defined.
